(** * Verification of the scraping helpers (functions_complete.py)

    A shallow embedding of the text refiners, date parsers, decorators and
    hash helpers of [functions_complete.py], followed by the properties the
    specification states about them.

    - A Python [str] is a list of Unicode code points.
    - A Python call that may raise is a value of [result]: either
      [Return v] or [Raise e] with the exception class [e].
    - The per-character Unicode properties of Basic Latin are written out;
      beyond Basic Latin they are read from a database [UCD], a parameter of
      the development. *)

From ITree Require Import ITree ITreeFacts.
From Stdlib Require Import Strings.String Strings.Ascii Strings.Byte.
From Stdlib Require Import List NArith ZArith Bool Lia.
Import ListNotations.
Import ITreeNotations.

Set Warnings "-register-all".

Set Implicit Arguments.

(** ** Exceptions and results *)

Inductive exn : Type :=
| ValueError
| IndexError
| TypeError
| KeyError
| OverflowError
| ZeroDivisionError
| UnicodeEncodeError
| InvalidOperation                  (* decimal.InvalidOperation *)
| TimeoutException                  (* selenium.common *)
| NoSuchElementException            (* selenium.common *)
| ElementNotInteractableException   (* selenium.common *)
| WebDriverException.               (* any other failure of the driver *)

Inductive result (A : Type) : Type :=
| Return (a : A)
| Raise (e : exn).

Arguments Return {A} a.
Arguments Raise {A} e.

Definition bind {A B} (m : result A) (k : A -> result B) : result B :=
  match m with
  | Return a => k a
  | Raise e => Raise e
  end.

Notation "'let*' x ':=' m 'in' k" := (bind m (fun x => k))
  (at level 10, x name, m at level 100, k at level 200).

(** [try: body  except classes: handler] *)
Definition try_except {A} (body : result A) (classes : exn -> bool)
           (handler : result A) : result A :=
  match body with
  | Return a => Return a
  | Raise e => if classes e then handler else Raise e
  end.

(** ** Strings *)

Definition char := N.
Definition str := list char.

(** A literal of the source. *)
Definition lit (s : String.string) : str :=
  map N_of_ascii (list_ascii_of_string s).

Definition str_eq_dec : forall a b : str, {a = b} + {a <> b} :=
  list_eq_dec N.eq_dec.

Definition str_eqb (a b : str) : bool :=
  if str_eq_dec a b then true else false.

(** [str.isspace] for one character: the code points CPython treats as
    whitespace ([_PyUnicode_IsWhitespace]). *)
Definition isspace_char (c : char) : bool :=
  ((9 <=? c) && (c <=? 13) || (28 <=? c) && (c <=? 32)
   || (c =? 133) || (c =? 160) || (c =? 5760)
   || (8192 <=? c) && (c <=? 8202)
   || (c =? 8232) || (c =? 8233) || (c =? 8239) || (c =? 8287)
   || (c =? 12288))%N.

(** [s.startswith(p)] *)
Fixpoint startswith (p s : str) : bool :=
  match p, s with
  | [], _ => true
  | _ :: _, [] => false
  | a :: p', b :: s' => (a =? b)%N && startswith p' s'
  end.

(** [sub in s] *)
Fixpoint contains (sub s : str) : bool :=
  startswith sub s ||
  match s with
  | [] => false
  | _ :: t => contains sub t
  end.

(** [sub] occurs in [s]: what [sub in s] decides. *)
Definition occurs (sub s : str) : Prop :=
  exists pre post, s = pre ++ sub ++ post.

(** [s.find(sub)], [None] standing for -1 *)
Fixpoint find (sub s : str) : option nat :=
  if startswith sub s then Some 0%nat
  else match s with
       | [] => None
       | _ :: t => option_map S (find sub t)
       end.

(** [s.index(sub)] *)
Definition index (sub s : str) : result nat :=
  match find sub s with
  | Some i => Return i
  | None => Raise ValueError
  end.

(** [s.replace(old, new)]: the occurrences of [old] are taken from the left
    and do not overlap; [skip] counts the characters of a matched [old]
    still to be dropped.  An empty [old] inserts [new] around every
    character. *)
Fixpoint replace_from (old new : str) (skip : nat) (s : str) : str :=
  match s with
  | [] => []
  | c :: t =>
      match skip with
      | S k => replace_from old new k t
      | O =>
          if startswith old s
          then new ++ replace_from old new (Nat.pred (length old)) t
          else c :: replace_from old new O t
      end
  end.

Definition replace (old new s : str) : str :=
  match old with
  | [] => new ++ flat_map (fun c => c :: new) s
  | _ :: _ => replace_from old new O s
  end.

(** [s.split(sep)] for a non-empty [sep] (every call of the source passes a
    non-empty literal; Python raises ValueError on an empty one). *)
Fixpoint split_from (sep : str) (skip : nat) (s : str) : list str :=
  match s with
  | [] => [[]]
  | c :: t =>
      match skip with
      | S k => split_from sep k t
      | O =>
          if startswith sep s
          then [] :: split_from sep (Nat.pred (length sep)) t
          else match split_from sep O t with
               | h :: r => (c :: h) :: r
               | [] => [[c]]
               end
      end
  end.

Definition split (sep s : str) : list str := split_from sep O s.

(** [s.split()]: maximal runs of non-whitespace characters. *)
Fixpoint split_ws (s : str) : list str :=
  match s with
  | [] => []
  | c :: t =>
      if isspace_char c then split_ws t
      else match t with
           | d :: _ =>
               if isspace_char d then [c] :: split_ws t
               else match split_ws t with
                    | h :: r => (c :: h) :: r
                    | [] => [[c]]
                    end
           | [] => [[c]]
           end
  end.

(** [sep.join(parts)] *)
Fixpoint join (sep : str) (parts : list str) : str :=
  match parts with
  | [] => []
  | x :: r =>
      match r with
      | [] => x
      | _ :: _ => x ++ sep ++ join sep r
      end
  end.

(** Iterating a string yields its characters as one-character strings. *)
Definition chars (s : str) : list str := map (fun c => [c]) s.

Fixpoint lstrip (s : str) : str :=
  match s with
  | [] => []
  | c :: t => if isspace_char c then lstrip t else s
  end.

Definition rstrip (s : str) : str := rev (lstrip (rev s)).

(** [s.strip()] *)
Definition strip (s : str) : str := rstrip (lstrip s).

(** [lst[i]] for a non-negative index, [lst[-1]] and [lst[:-1]] *)
Definition getitem {A} (l : list A) (i : nat) : result A :=
  match nth_error l i with
  | Some x => Return x
  | None => Raise IndexError
  end.

Definition getlast {A} (l : list A) : result A :=
  match rev l with
  | x :: _ => Return x
  | [] => Raise IndexError
  end.

Definition butlast {A} (l : list A) : list A := removelast l.

(** ** The Unicode character database

    [unicodedata] and the digit classification of [str.isdigit], [int] and
    [Decimal] are tables of the interpreter.  Basic Latin is fixed below;
    the rest of the tables is a parameter. *)

Record UCD : Type := {
  (** value of a decimal digit (category Nd) outside Basic Latin *)
  ucd_decimal : char -> option N;
  (** digits that are not decimal (superscripts, circled digits, ...) *)
  ucd_digit : char -> bool;
  (** [unicodedata.name]; [None] when the character has no name *)
  ucd_name : char -> option str;
  (** [unicodedata.lookup]; [None] when the name is unknown *)
  ucd_lookup : str -> option str
}.

(** The database cut down to Basic Latin: used to run the functions on
    ASCII inputs. *)
Definition basic_latin : UCD :=
  {| ucd_decimal := fun _ => None;
     ucd_digit := fun _ => false;
     ucd_name := fun _ => None;
     ucd_lookup := fun _ => None |}.

(** A database with three entries, to run the normalizer. *)
Definition accents : UCD :=
  {| ucd_decimal := fun _ => None;
     ucd_digit := fun _ => false;
     ucd_name := fun c =>
       if (c =? 233)%N then Some (lit "LATIN SMALL LETTER E WITH ACUTE")
       else if (c =? 101)%N then Some (lit "LATIN SMALL LETTER E")
       else if (c =? 99)%N then Some (lit "LATIN SMALL LETTER C")
       else None;
     ucd_lookup := fun n =>
       if str_eqb n (lit "LATIN SMALL LETTER E") then Some [101%N]
       else if str_eqb n (lit "LATIN SMALL LETTER C") then Some [99%N]
       else if str_eqb n (lit "LATIN SMALL LETTER E WITH ACUTE") then Some [233%N]
       else None |}.

(** A month table with one entry, to run the month-name parsers. *)
Definition only_maja (name : str) : option Z :=
  if str_eqb name (lit "maja") then Some 5%Z else None.

Section Helpers.

Variable U : UCD.

Definition is_ascii (c : char) : bool := (c <? 128)%N.

(** [Py_UNICODE_TODECIMAL] *)
Definition decimal_value (c : char) : option N :=
  if is_ascii c
  then if ((48 <=? c) && (c <=? 57))%N then Some (c - 48)%N else None
  else ucd_decimal U c.

Definition isdecimal_char (c : char) : bool :=
  match decimal_value c with Some _ => true | None => false end.

(** [str.isdigit] for one character *)
Definition isdigit_char (c : char) : bool :=
  isdecimal_char c || (negb (is_ascii c) && ucd_digit U c).

(** [s.isdigit()]: non-empty and every character a digit *)
Definition isdigit (s : str) : bool :=
  match s with
  | [] => false
  | _ :: _ => forallb isdigit_char s
  end.

(** *** [int(s)] for a string

    Whitespace around the literal is dropped, then an optional sign, then
    decimal digits with single underscores between them.  A literal of
    more than [sys.get_int_max_str_digits()] digits, 4300 unless the
    interpreter is told otherwise, is refused with a ValueError; the
    underscores do not count. *)
Definition int_space (c : char) : bool :=
  if is_ascii c then ((9 <=? c) && (c <=? 13) || (c =? 32))%N
  else isspace_char c.

Fixpoint drop_while (p : char -> bool) (s : str) : str :=
  match s with
  | [] => []
  | c :: t => if p c then drop_while p t else s
  end.

Fixpoint digits_from (acc : N) (after_digit : bool) (s : str) : option N :=
  match s with
  | [] => if after_digit then Some acc else None
  | c :: t =>
      if (c =? 95)%N
      then if after_digit then digits_from acc false t else None
      else match decimal_value c with
           | Some d => digits_from (10 * acc + d)%N true t
           | None => None
           end
  end.

Definition int_max_str_digits : nat := 4300.

(** The digits of a literal: its characters other than the underscore. *)
Definition count_digits (body : str) : nat :=
  length (filter (fun c => negb (c =? 95)%N) body).

Definition int_of_str (s : str) : result Z :=
  let s1 := rev (drop_while int_space (rev (drop_while int_space s))) in
  let '(negative, body) :=
    match s1 with
    | 43%N :: r => (false, r)
    | 45%N :: r => (true, r)
    | _ => (false, s1)
    end in
  match digits_from 0 false body with
  | Some n =>
      if (int_max_str_digits <? count_digits body)%nat then Raise ValueError
      else Return (if negative then - Z.of_N n else Z.of_N n)%Z
  | None => Raise ValueError
  end.

Definition is_ValueError (e : exn) : bool :=
  match e with ValueError => true | _ => false end.

(** ** Refine functions *)

(** The tokens kept by the refiners:
    [[i for i in tokens if i.replace('.', '').isdigit()]] *)
Definition digit_tokens (tokens : list str) : list str :=
  filter (fun i => isdigit (replace (lit ".") (lit "") i)) tokens.

(** [x or '0'] for strings *)
Definition str_or (x y : str) : str :=
  match x with [] => y | _ :: _ => x end.

Definition refine_price_val (price_string : str) : result str :=
  let debt_value_refined :=
    join (lit "")
      (digit_tokens (split_ws (replace (lit ",") (lit ".") price_string))) in
  Return (str_or debt_value_refined (lit "0")).

Definition refine_eng_capacity (eng_cap_str : str) : result Z :=
  let eng_cap_str :=
    join (lit "")
      (butlast (split (lit "cm")
                  (strip (replace (lit ",") (lit ".") eng_cap_str)))) in
  try_except
    (int_of_str (join (lit "") (digit_tokens (split_ws (strip eng_cap_str)))))
    is_ValueError
    (Return 0%Z).

Definition refine_mileage (mileage_str : str) : result Z :=
  try_except
    (int_of_str
       (join (lit "")
          (digit_tokens (split_ws (replace (lit ",") (lit ".") mileage_str)))))
    is_ValueError
    (Return 0%Z).

Definition refine_integer (integer_str : str) : result Z :=
  try_except
    (int_of_str
       (join (lit "")
          (digit_tokens (split_ws (replace (lit ",") (lit ".") integer_str)))))
    is_ValueError
    (Return 0%Z).

(** ** Printing numbers *)

Fixpoint dec_digits (fuel : nat) (n : N) (acc : str) : str :=
  match fuel with
  | O => acc
  | S f =>
      let acc' := (48 + n mod 10)%N :: acc in
      if (n <? 10)%N then acc' else dec_digits f (n / 10)%N acc'
  end.

(** [str(n)] for a non-negative integer *)
Definition str_of_N (n : N) : str := dec_digits (S (N.size_nat n)) n [].

(** [s.zfill(width)] *)
Definition zfill (width : nat) (s : str) : str :=
  repeat 48%N (width - length s) ++ s.

(** Number of decimal digits of a coefficient ([len(self._int)]). *)
Fixpoint ndigits_from (fuel : nat) (n : N) : nat :=
  match fuel with
  | O => 1
  | S f => if (n <? 10)%N then 1 else S (ndigits_from f (n / 10)%N)
  end.

Definition ndigits (n : N) : nat := ndigits_from (N.size_nat n) n.

(** ** Decimal

    A finite [decimal.Decimal]: sign, coefficient and exponent.  The special
    values (infinities, NaN) are left out.  Their literals contain letters,
    which the guard of [prep_decimal_from_string] never lets through as the
    text; as the quantum, "inf" is what [str] prints when the reciprocal
    overflows, and [quantize] with an infinite quantum and a finite operand
    signals InvalidOperation: here [Decimal_of_str] refuses the literal
    with that same exception, which the function raises in both cases.
    The arithmetic context is the default one. *)

Record Decimal : Type := {
  dsign : bool;   (* true: negative *)
  dcoeff : N;
  dexp : Z
}.

Definition context_prec : Z := 28.
Definition context_Emax : Z := 999999.
Definition context_Etiny : Z := -1000026.

(** Leading decimal digits of [s] (their values) and what follows them. *)
Fixpoint span_digits (s : str) : list N * str :=
  match s with
  | [] => ([], [])
  | c :: t =>
      match decimal_value c with
      | Some d => let '(ds, r) := span_digits t in (d :: ds, r)
      | None => ([], s)
      end
  end.

Definition N_of_digits (ds : list N) : N :=
  fold_left (fun acc d => (10 * acc + d)%N) ds 0%N.

(** The exponent part of a literal: nothing, or [e], an optional sign
    and at least one digit, up to the end. *)
Definition exponent_part (s : str) : option Z :=
  match s with
  | [] => Some 0%Z
  | c :: r =>
      if ((c =? 101) || (c =? 69))%N
      then
        let '(negative, r1) :=
          match r with
          | 45%N :: r' => (true, r')
          | 43%N :: r' => (false, r')
          | _ => (false, r)
          end in
        match span_digits r1 with
        | ((_ :: _) as ds, []) =>
            Some (if negative then - Z.of_N (N_of_digits ds)
                  else Z.of_N (N_of_digits ds))%Z
        | _ => None
        end
      else None
  end.

(** [Decimal(value)] for a string: surrounding whitespace and underscores
    are dropped; then a sign, digits with at most one period (at least one
    digit in all) and an exponent part. *)
Definition Decimal_of_str (value : str) : result Decimal :=
  let v := replace (lit "_") (lit "") (strip value) in
  let '(negative, v1) :=
    match v with
    | 45%N :: r => (true, r)
    | 43%N :: r => (false, r)
    | _ => (false, v)
    end in
  let '(intpart, v2) := span_digits v1 in
  let '(fracpart, v3) :=
    match v2 with
    | 46%N :: r => span_digits r
    | _ => ([], v2)
    end in
  match intpart ++ fracpart with
  | [] => Raise InvalidOperation
  | _ :: _ =>
      match exponent_part v3 with
      | Some e =>
          Return {| dsign := negative;
                    dcoeff := N_of_digits (intpart ++ fracpart);
                    dexp := e - Z.of_nat (length fracpart) |}
      | None => Raise InvalidOperation
      end
  end.

(** [self.adjusted()] *)
Definition adjusted (d : Decimal) : Z :=
  dexp d + Z.of_nat (ndigits (dcoeff d)) - 1.

(** [self._rescale(exp, ROUND_HALF_EVEN)] *)
Definition rescale (d : Decimal) (e : Z) : Decimal :=
  if (e <=? dexp d)%Z
  then {| dsign := dsign d;
          dcoeff := dcoeff d * 10 ^ Z.to_N (dexp d - e);
          dexp := e |}
  else
    let unit := (10 ^ Z.to_N (e - dexp d))%N in
    let q := (dcoeff d / unit)%N in
    let r := (dcoeff d mod unit)%N in
    let up := ((unit <? 2 * r) || ((2 * r =? unit) && N.odd q))%N in
    {| dsign := dsign d;
       dcoeff := if up then q + 1 else q;
       dexp := e |}.

(** [self.quantize(exp)] *)
Definition quantize (self exp : Decimal) : result Decimal :=
  let e := dexp exp in
  if negb ((context_Etiny <=? e) && (e <=? context_Emax))%Z
  then Raise InvalidOperation
  else if (dcoeff self =? 0)%N
  then Return {| dsign := dsign self; dcoeff := 0; dexp := e |}
  else if (context_Emax <? adjusted self)%Z then Raise InvalidOperation
  else if (context_prec <? adjusted self - e + 1)%Z then Raise InvalidOperation
  else
    let ans := rescale self e in
    if (context_Emax <? adjusted ans)%Z then Raise InvalidOperation
    else if (context_prec <? Z.of_nat (ndigits (dcoeff ans)))%Z
    then Raise InvalidOperation
    else Return ans.

(** [str(1 / (10 ** precision_fp))] for a non-negative [precision_fp]:
    the power is an integer and the quotient is the double nearest to
    10^-p, which Python prints in positional notation down to 0.0001 and in
    scientific notation below. *)
Definition str_of_reciprocal_pow10 (precision_fp : N) : str :=
  if (precision_fp =? 0)%N then lit "1.0"
  else if (precision_fp <=? 4)%N
  then lit "0." ++ repeat 48%N (Nat.pred (N.to_nat precision_fp)) ++ lit "1"
  else lit "1e-" ++ zfill 2 (str_of_N precision_fp).

(** For a negative [precision_fp] the power is a float operation.  The
    exponent is converted to a double, with an OverflowError when it is too
    large for one; the C library's [pow] computes the power, which
    underflows to 0.0 from 10 ** -324 on, and the division then raises
    ZeroDivisionError; otherwise [str] prints the quotient ("10.0",
    "99999.99999999999", "1e+16", "inf").  The digits that come out depend
    on the C library, so the outcome is a parameter. *)
Inductive float_text : Type :=
| Printed (text : str)
| DivisionByZero
| ExponentTooLarge.

Variable float_reciprocal_pow10 : Z -> float_text.

Definition quantum_text (precision_fp : Z) : result str :=
  if (precision_fp <? 0)%Z
  then match float_reciprocal_pow10 precision_fp with
       | Printed text => Return text
       | DivisionByZero => Raise ZeroDivisionError
       | ExponentTooLarge => Raise OverflowError
       end
  else Return (str_of_reciprocal_pow10 (Z.to_N precision_fp)).

Definition prep_decimal_from_string (s : str) (precision_fp : Z)
  : result Decimal :=
  if (20 <? precision_fp)%Z then Raise ValueError
  else
    let* precision := quantum_text precision_fp in
    if negb (isdigit (replace (lit ".") (lit "") s))
    then
      let* zero := Decimal_of_str (lit "0") in
      let* quantum := Decimal_of_str precision in
      quantize zero quantum
    else
      let* d := Decimal_of_str s in
      let* quantum := Decimal_of_str precision in
      quantize d quantum.

(** ** Dates *)

Record date : Type := { year : Z; month : Z; day : Z }.

(** The range of a C [int], to which [datetime] converts its arguments. *)
Definition fits_c_int (z : Z) : bool :=
  ((- 2147483648 <=? z) && (z <=? 2147483647))%Z.

Definition is_leap (y : Z) : bool :=
  ((y mod 4 =? 0) && (negb (y mod 100 =? 0) || (y mod 400 =? 0)))%Z.

Definition days_in_month (y m : Z) : Z :=
  if (m =? 2)%Z then (if is_leap y then 29 else 28)%Z
  else if ((m =? 4) || (m =? 6) || (m =? 9) || (m =? 11))%Z then 30%Z
  else 31%Z.

(** [datetime(year, month, day)]: the arguments are converted in order
    (OverflowError beyond a C int, TypeError for a month that is [None]),
    then their ranges are checked (ValueError). *)
Definition datetime (y : Z) (m : option Z) (d : Z) : result date :=
  if negb (fits_c_int y) then Raise OverflowError
  else match m with
       | None => Raise TypeError
       | Some m =>
           if negb (fits_c_int m) then Raise OverflowError
           else if negb (fits_c_int d) then Raise OverflowError
           else if ((1 <=? y) && (y <=? 9999) && (1 <=? m) && (m <=? 12)
                    && (1 <=? d) && (d <=? days_in_month y m))%Z
           then Return {| year := y; month := m; day := d |}
           else Raise ValueError
       end.

(** [dt.strftime('%Y-%m-%d')], as CPython 3.11 gives it with the C
    library of Linux: the month and the day take two digits, the year is
    printed as it is, so a year below 1000 has fewer than four digits
    ("999-01-01"). *)
Definition strftime_Y_m_d (dt : date) : str :=
  str_of_N (Z.to_N (year dt)) ++ lit "-"
  ++ zfill 2 (str_of_N (Z.to_N (month dt))) ++ lit "-"
  ++ zfill 2 (str_of_N (Z.to_N (day dt))).

(** *** [datetime.strptime]

    The format is turned into a regular expression, one group per
    directive, each group an ordered choice of fixed-length alternatives;
    the first match found by backtracking is taken and must use up the
    whole string. *)

Inductive directive : Type :=
| pct_d | pct_m | pct_Y | pct_y
| literal (c : char).

Fixpoint directives (fmt : str) : list directive :=
  match fmt with
  | [] => []
  | 37%N :: 100%N :: r => pct_d :: directives r
  | 37%N :: 109%N :: r => pct_m :: directives r
  | 37%N :: 89%N :: r => pct_Y :: directives r
  | 37%N :: 121%N :: r => pct_y :: directives r
  | c :: r => literal c :: directives r
  end.

Definition one (c : char) : char -> bool := fun x => (x =? c)%N.
Definition between (a b : char) : char -> bool :=
  fun x => ((a <=? x) && (x <=? b))%N.

Arguments one c%_N.
Arguments between (a b)%_N.

(** The alternatives of a directive, in the order the expression lists
    them; [isdecimal_char] is the class [\d]. *)
Definition alternatives (d : directive) : list (list (char -> bool)) :=
  match d with
  | pct_d => [ [one 51; between 48 49];          (* 3[0-1] *)
               [between 49 50; isdecimal_char];  (* [1-2]\d *)
               [one 48; between 49 57];          (* 0[1-9] *)
               [between 49 57];                  (* [1-9] *)
               [one 32; between 49 57] ]         (* space [1-9] *)
  | pct_m => [ [one 49; between 48 50];          (* 1[0-2] *)
               [one 48; between 49 57];          (* 0[1-9] *)
               [between 49 57] ]                 (* [1-9] *)
  | pct_Y => [ [isdecimal_char; isdecimal_char; isdecimal_char; isdecimal_char] ]
  | pct_y => [ [isdecimal_char; isdecimal_char] ]
  | literal c => [ [one c] ]
  end.

Fixpoint match_alt (a : list (char -> bool)) (s : str) : option (str * str) :=
  match a with
  | [] => Some ([], s)
  | p :: a' =>
      match s with
      | [] => None
      | c :: t =>
          if p c
          then match match_alt a' t with
               | Some (m, r) => Some (c :: m, r)
               | None => None
               end
          else None
      end
  end.

Fixpoint re_match (fmt : list directive) (s : str)
  : option (list (directive * str) * str) :=
  match fmt with
  | [] => Some ([], s)
  | d :: fmt' =>
      (fix try (alts : list (list (char -> bool))) :=
         match alts with
         | [] => None
         | a :: alts' =>
             match match_alt a s with
             | Some (m, rest) =>
                 match re_match fmt' rest with
                 | Some (groups, r) => Some ((d, m) :: groups, r)
                 | None => try alts'
                 end
             | None => try alts'
             end
         end) (alternatives d)
  end.

Definition directive_eqb (a b : directive) : bool :=
  match a, b with
  | pct_d, pct_d | pct_m, pct_m | pct_Y, pct_Y | pct_y, pct_y => true
  | literal x, literal y => (x =? y)%N
  | _, _ => false
  end.

Fixpoint group (d : directive) (groups : list (directive * str)) : option str :=
  match groups with
  | [] => None
  | (d', m) :: r => if directive_eqb d d' then Some m else group d r
  end.

(** The value of a group, or the default when the format lacks it. *)
Definition group_int (d : directive) (groups : list (directive * str))
           (default : Z) : result Z :=
  match group d groups with
  | Some m => int_of_str m
  | None => Return default
  end.

Definition strptime (data_string fmt : str) : result date :=
  match re_match (directives fmt) data_string with
  | None => Raise ValueError                (* does not match format *)
  | Some (groups, _ :: _) => Raise ValueError  (* unconverted data remains *)
  | Some (groups, []) =>
      let* y :=
        match group pct_Y groups with
        | Some m => int_of_str m
        | None =>
            match group pct_y groups with
            | Some m =>
                let* yy := int_of_str m in
                Return (if (yy <=? 68)%Z then 2000 + yy else 1900 + yy)%Z
            | None => Return 1900%Z
            end
        end in
      let* m := group_int pct_m groups 1%Z in
      let* d := group_int pct_d groups 1%Z in
      datetime y (Some m) d
  end.

Definition catches_Index_Type (e : exn) : bool :=
  match e with IndexError | TypeError => true | _ => false end.

Section MonthTables.

(** Modelled from the spec: [func_const.Months] is not part of the sources;
    its two dictionaries are Polish month name to month number tables, read
    with [dict.get]. *)
Variable TRANSLATE_POLISH_TO_ENGLISH_FULL_CONJ : str -> option Z.
Variable TRANSLATE_POLISH_TO_ENGLISH_FULL : str -> option Z.

Definition format_date_string_d_mword_y (s : str) : result str :=
  let date := split_ws s in
  try_except
    (let* y_token := getlast date in
     let* y := int_of_str y_token in
     let* m_token := getitem date 1 in
     let m := TRANSLATE_POLISH_TO_ENGLISH_FULL_CONJ m_token in
     let* d_token := getitem date 0 in
     let* d := int_of_str d_token in
     let* dt := datetime y m d in
     Return (strftime_Y_m_d dt))
    catches_Index_Type
    (Return (lit "")).

Definition format_date_string_mword_y (s : str) : result str :=
  let date := split_ws s in
  try_except
    (let* y_token := getlast date in
     let* y := int_of_str y_token in
     let* m_token := getitem date 0 in
     let m := TRANSLATE_POLISH_TO_ENGLISH_FULL m_token in
     let* dt := datetime y m 1%Z in
     Return (strftime_Y_m_d dt))
    catches_Index_Type
    (Return (lit "")).

End MonthTables.

(** The two numeric parsers return a string, or [None] when control runs
    off the end of the function.  A block of [if ...: return ...] is a
    computation of [option]: [Some v] when it returned [v], [None] when
    control falls through to the next statement. *)

Definition parsed (s fmt : str) : result (option (option str)) :=
  let* dt := strptime s fmt in
  Return (Some (Some (strftime_Y_m_d dt))).

(** [s.split('.') if '.' in s else s.split('-')] *)
Definition split_date (s : str) : list str :=
  if contains (lit ".") s then split (lit ".") s else split (lit "-") s.

Definition format_date_string_d_m_y (s : str) : result (option str) :=
  let date_list := split_date s in
  if (length date_list =? 3)%nat then
    let* dotted :=
      if contains (lit ".") s then
        let* c := getitem date_list 2 in
        if (length c =? 4)%nat then parsed s (lit "%d.%m.%Y")
        else if (length c =? 2)%nat then parsed s (lit "%d.%m.%y")
        else Return None
      else Return None in
    match dotted with
    | Some v => Return v
    | None =>
        let* dashed :=
          if contains (lit "-") s then
            let* c := getitem date_list 2 in
            if (length c =? 4)%nat then parsed s (lit "%d-%m-%Y")
            else if (length c =? 2)%nat then parsed s (lit "%d-%m-%y")
            else Return None
          else Return None in
        match dashed with
        | Some v => Return v
        | None => Return None
        end
    end
  else Return (Some (lit "")).

Definition format_date_string_y_m_d (s : str) : result (option str) :=
  let date_list := split_date s in
  if (length date_list =? 3)%nat then
    let* dotted :=
      if contains (lit ".") s then
        let* c := getitem date_list 0 in
        if (length c =? 4)%nat then parsed s (lit "%Y.%m.%d")
        else if (length c =? 2)%nat then parsed s (lit "%y.%m.%d")
        else Return None
      else Return None in
    match dotted with
    | Some v => Return v
    | None =>
        let* dashed :=
          if contains (lit "-") s then
            let* c := getitem date_list 0 in
            if (length c =? 4)%nat then Return (Some (Some s))
            else if (length c =? 2)%nat then parsed s (lit "%y-%m-%d")
            else Return None
          else Return None in
        match dashed with
        | Some v => Return v
        | None => Return None
        end
    end
  else Return (Some (lit "")).

(** ** Normalization functions *)

(** [unicodedata.name(c)] and [unicodedata.lookup(name)] *)
Definition unicodedata_name (c : char) : result str :=
  match ucd_name U c with
  | Some n => Return n
  | None => Raise ValueError
  end.

Definition unicodedata_lookup (name : str) : result str :=
  match ucd_lookup U name with
  | Some s => Return s
  | None => Raise KeyError
  end.

Definition catches_Value_Key (e : exn) : bool :=
  match e with ValueError | KeyError => true | _ => false end.

Definition normalize_char (c : char) : result str :=
  try_except
    (let* cname := unicodedata_name c in
     let* i := index (lit " WITH") cname in
     let cname := firstn i cname in
     unicodedata_lookup cname)
    catches_Value_Key
    (Return [c]).

Fixpoint map_result {A B} (f : A -> result B) (l : list A) : result (list B) :=
  match l with
  | [] => Return []
  | x :: r =>
      let* y := f x in
      let* ys := map_result f r in
      Return (y :: ys)
  end.

Definition normalize_string (s : str) : result str :=
  let* parts :=
    map_result (fun i => let* n := normalize_char i in
                         Return (replace [i] n [i])) s in
  Return (join (lit "") parts).

(** A character is settled when normalization leaves it alone. *)
Definition settled (d : char) : Prop := normalize_char d = Return [d].

End Helpers.

(** An outcome of the float path for runs with a precision that is not
    negative: they never ask for it. *)
Definition float_path_unused (precision_fp : Z) : float_text := DivisionByZero.



(** ** Translation on a substring match *)

(** [next(iter(list(filter(lambda x: x[0] in s, translator_tuple))), ('', ''))] *)
Definition first_matching (s : str) (translator_tuple : list (str * str))
  : str * str :=
  match filter (fun x => contains (fst x) s) translator_tuple with
  | x :: _ => x
  | [] => (lit "", lit "")
  end.

Definition translate_word_containing_substring
           (s : str) (translator_tuple : list (str * str)) : str :=
  join (lit "") (chars (snd (first_matching s translator_tuple))).

(** ** Decorators *)

(** What a wrapped lookup can return. *)
Inductive value : Type :=
| VNone
| VStr (s : str)
| VList (l : list value)
| VElement (id : N).

(** [except (TimeoutException, NoSuchElementException,
            ElementNotInteractableException)]: an exception class stands
    for itself and its subclasses. *)
Definition contained (e : exn) : bool :=
  match e with
  | TimeoutException | NoSuchElementException
  | ElementNotInteractableException => true
  | _ => false
  end.

Section Decorators.

(** [*args, **kwargs] *)
Variable Args : Type.

Definition wait_for (func : Args -> result value) : Args -> result value :=
  fun args => try_except (func args) contained (Return VNone).

Definition wait_for_list (func : Args -> result value) : Args -> result value :=
  fun args => try_except (func args) contained (Return (VList [])).

Definition get_func_or_eptstr (func : Args -> result value)
  : Args -> result value :=
  fun args => try_except (func args) contained (Return (VStr (lit ""))).

End Decorators.

(** ** Hashes *)

Definition byte_of_N (n : N) : byte :=
  match Byte.of_N (n mod 256) with
  | Some b => b
  | None => x00
  end.

(** [text.encode('utf-8')]; a surrogate cannot be encoded. *)
Definition utf8_char (c : char) : result (list byte) :=
  if (c <? 128)%N then Return [byte_of_N c]
  else if (c <? 2048)%N
  then Return [byte_of_N (192 + c / 64); byte_of_N (128 + c mod 64)]
  else if ((55296 <=? c) && (c <=? 57343))%N then Raise UnicodeEncodeError
  else if (c <? 65536)%N
  then Return [byte_of_N (224 + c / 4096);
               byte_of_N (128 + (c / 64) mod 64);
               byte_of_N (128 + c mod 64)]
  else if (c <? 1114112)%N
  then Return [byte_of_N (240 + c / 262144);
               byte_of_N (128 + (c / 4096) mod 64);
               byte_of_N (128 + (c / 64) mod 64);
               byte_of_N (128 + c mod 64)]
  else Raise UnicodeEncodeError.   (* not a code point *)

Fixpoint utf8_encode (s : str) : result (list byte) :=
  match s with
  | [] => Return []
  | c :: t =>
      let* b := utf8_char c in
      let* r := utf8_encode t in
      Return (b ++ r)
  end.

Definition hex_digit (n : N) : char :=
  if (n <? 10)%N then (48 + n)%N else (87 + n)%N.

(** [data.hex()] *)
Definition hex (data : list byte) : str :=
  flat_map (fun b => [hex_digit (Byte.to_N b / 16);
                      hex_digit (Byte.to_N b mod 16)]) data.

(** [bytes(ints)]: every element must be in [range(256)]. *)
Fixpoint bytes_of_ints (ints : list Z) : result (list byte) :=
  match ints with
  | [] => Return []
  | i :: r =>
      if ((0 <=? i) && (i <? 256))%Z
      then let* bs := bytes_of_ints r in
           Return (byte_of_N (Z.to_N i) :: bs)
      else Raise ValueError
  end.

Section Hashes.

(** [hashlib.md5(data).digest()]; [hexdigest()] is its hexadecimal form. *)
Variable md5_digest : list byte -> list byte.

Definition md5_hexdigest (data : list byte) : str := hex (md5_digest data).

Definition calculate_md5 (text : str) : result str :=
  let* data := utf8_encode text in
  Return (md5_hexdigest data).

Definition calculate_hash (text salt : str) (shift : Z) : result str :=
  let* data := utf8_encode (text ++ salt) in
  let hash_digest := md5_digest data in
  let* shifted_digest :=
    bytes_of_ints
      (map (fun b => ((Z.of_N (Byte.to_N b) + shift) mod 256)%Z) hash_digest) in
  Return (hex shifted_digest).

(** ** Waiting for the page to settle

    The function talks to the driver and to the clock; it is an interaction
    tree over these events. *)

Variable seconds : Type.

Local Open Scope itree_scope.

Variant driverE : Type -> Type :=
| PageSource : driverE str              (* driver.page_source *)
| Sleep (tsleep : seconds) : driverE unit   (* time.sleep(tsleep) *)
| Throw (e : exn) : driverE Empty_set.  (* an exception leaves the function *)

Definition lift {A} (r : result A) : itree driverE A :=
  match r with
  | Return a => Ret a
  | Raise e => ITree.bind (ITree.trigger (Throw e))
                          (fun x : Empty_set => match x with end)
  end.

(** [hashlib.md5(bytearray(driver.page_source, 'utf-8')).hexdigest()] *)
Definition page_fingerprint : itree driverE str :=
  src <- ITree.trigger PageSource ;;
  lift (let* data := utf8_encode src in Return (md5_hexdigest data)).

(** One round of [while changed: ...] on the variables [(md5, changed)]. *)
Definition loop_body (tsleep : seconds) (vars : str * bool)
  : itree driverE (str * bool + unit) :=
  let '(md5, changed) := vars in
  if changed then
    ITree.trigger (Sleep tsleep) ;;
    md5new <- page_fingerprint ;;
    Ret (inl (md5new, negb (str_eqb md5 md5new)))
  else Ret (inr tt).

Definition buffer_until_page_fully_loaded (tsleep : seconds)
  : itree driverE unit :=
  md5 <- page_fingerprint ;;
  ITree.iter (loop_body tsleep) (md5, false).

(** A driver, seen from this function: the page source it answers at the
    n-th read, or the exception it raises.  [run] plays the function
    against a driver and logs what it asked for. *)
Variant event : Type :=
| Read
| Slept (tsleep : seconds).

Fixpoint run {R} (fuel : nat) (driver : nat -> result str) (reads : nat)
         (log : list event) (t : itree driverE R)
  : option (result R * list event) :=
  match fuel with
  | O => None
  | S f =>
      match observe t with
      | RetF r => Some (Return r, log)
      | TauF t' => run f driver reads log t'
      | VisF e k =>
          match e in driverE X return (X -> itree driverE R) -> _ with
          | PageSource =>
              fun k =>
                match driver reads with
                | Return src => run f driver (S reads) (log ++ [Read]) (k src)
                | Raise e => Some (Raise e, log ++ [Read])
                end
          | Sleep s => fun k => run f driver reads (log ++ [Slept s]) (k tt)
          | Throw e => fun _ => Some (Raise e, log)
          end k
      end
  end.

End Hashes.

(** ** The remaining refiners and list helpers *)

Section DigitRefiners.

Variable U : UCD.

(** [[i for i in s if i.isdigit()]]: [i] runs over the characters of [s]. *)
Definition refine_str_to_digit (s : str) : str :=
  join (lit "") (filter (isdigit U) (chars s)).

(** [[i for i in time_string.split() if i.isdigit()]] *)
Definition refine_timedelta (time_string : str) : str :=
  join (lit "") (filter (isdigit U) (split_ws time_string)).

End DigitRefiners.

(** [next(iter(lst), '')] *)
Definition get_first_elem (lst : list str) : str :=
  match lst with
  | x :: _ => x
  | [] => lit ""
  end.

(** The loop of [get_first_n_elem_as_str]: [count] rounds are left of
    [for i in range(n)], [gen] is what the iterator still holds; an
    exhausted iterator ([StopIteration]) breaks out of the loop. *)
Fixpoint first_n_loop (count : nat) (gen : list str) (s : str) : str :=
  match count with
  | O => s
  | S k =>
      match gen with
      | x :: gen' => first_n_loop k gen' (s ++ (x ++ lit " "))
      | [] => s
      end
  end.

Definition get_first_n_elem_as_str (lst : list str) (n : Z) : str :=
  strip (first_n_loop (Z.to_nat n) lst (lit "")).

(** ** Kebab case to Pascal case *)

(** [lst[i] = x] *)
Definition setitem {A} (l : list A) (i : nat) (x : A) : result (list A) :=
  if (i <? length l)%nat
  then Return (firstn i l ++ x :: skipn (S i) l)
  else Raise IndexError.

Section Case.

(** [str.capitalize] and [str.upper] follow the case tables of the
    interpreter and are parameters. *)
Variable str_capitalize : str -> str.
Variable str_upper : str -> str.

(** The body of [for idx, char in enumerate(reversed(s))], on the
    characters still to come, the index [idx] and [new_str_list]. *)
Fixpoint pascal_loop (reversed_s : str) (idx len_s : nat)
         (new_str_list : list str) : result (list str) :=
  match reversed_s with
  | [] => Return new_str_list
  | char :: rest =>
      let real_idx := (len_s - 1 - idx)%nat in
      let* marked :=
        if (char =? 45)%N
        then
          let* next := getitem new_str_list (real_idx + 1) in
          setitem new_str_list (real_idx + 1) (str_upper next)
        else Return new_str_list in
      let char := if (char =? 45)%N then lit "" else [char] in
      let* stored := setitem marked real_idx char in
      pascal_loop rest (S idx) len_s stored
  end.

Definition kebabcase_to_pascalcase (s : str) : result str :=
  let s := str_capitalize s in
  let new_str_list := repeat (lit "") (length s) in
  let* filled := pascal_loop (rev s) 0 (length s) new_str_list in
  Return (join (lit "") filled).

(** What the loop leaves in the cells of a suffix of [s]: a hyphen leaves
    an empty cell and upper-cases the cell after it. *)
Definition upper_head (cells : list str) : list str :=
  match cells with
  | [] => []
  | x :: r => str_upper x :: r
  end.

Fixpoint pascal_cells (s : str) : list str :=
  match s with
  | [] => []
  | c :: t =>
      if (c =? 45)%N then lit "" :: upper_head (pascal_cells t)
      else [c] :: pascal_cells t
  end.

End Case.

(** ** The element accessors *)

Section Accessors.

Variable Driver : Type.
Variable seconds : Type.

(** [WebDriverWait(driver, twait).until(condition((By.CSS_SELECTOR,
    css_selector)))] for the three conditions the accessors wait on. *)
Variable until_presence_of_element_located :
  Driver -> seconds -> str -> result value.
Variable until_presence_of_all_elements_located :
  Driver -> seconds -> str -> result value.
Variable until_element_to_be_clickable :
  Driver -> seconds -> str -> result value.

Definition is_empty (s : str) : bool :=
  match s with [] => true | _ :: _ => false end.

Definition buffer : Driver * str * seconds -> result value :=
  wait_for (fun args =>
    let '(driver, css_selector, twait) := args in
    if is_empty css_selector then Return VNone
    else until_presence_of_element_located driver twait css_selector).

Definition buffer_all : Driver * str * seconds -> result value :=
  wait_for_list (fun args =>
    let '(driver, css_selector, twait) := args in
    if is_empty css_selector then Return (VList [])
    else until_presence_of_all_elements_located driver twait css_selector).

Definition buffer_interactable : Driver * str * seconds -> result value :=
  wait_for (fun args =>
    let '(driver, css_selector, twait) := args in
    if is_empty css_selector then Return VNone
    else until_element_to_be_clickable driver twait css_selector).

End Accessors.

(** ** Writing a date with leading zeros *)

Definition digit_char (k : N) : char := (48 + k)%N.

Definition two_digits (n : N) : str :=
  [digit_char (n / 10); digit_char (n mod 10)].

Definition four_digits (n : N) : str :=
  [digit_char (n / 1000); digit_char ((n / 100) mod 10);
   digit_char ((n / 10) mod 10); digit_char (n mod 10)].

(** * Properties *)

(** ** Strings *)

Lemma startswith_app (p r : str) : startswith p (p ++ r) = true.
Proof.
  induction p as [|a p IH]; [reflexivity|].
  cbn. now rewrite N.eqb_refl, IH.
Qed.

Lemma startswith_inv (p s : str) :
  startswith p s = true -> exists r, s = p ++ r.
Proof.
  revert s. induction p as [|a p IH]; intros s H.
  - now exists s.
  - destruct s as [|b s]; [discriminate|].
    cbn in H. apply andb_true_iff in H. destruct H as [Hab Hp].
    apply N.eqb_eq in Hab. subst b.
    destruct (IH _ Hp) as [r ->]. now exists r.
Qed.

Lemma contains_occurs (sub s : str) :
  contains sub s = true <-> occurs sub s.
Proof.
  split.
  - induction s as [|c t IH]; cbn; intros H.
    + rewrite orb_false_r in H. apply startswith_inv in H.
      destruct H as [r ->]. now exists [], r.
    + apply orb_true_iff in H. destruct H as [H|H].
      * apply startswith_inv in H. destruct H as [r Hr].
        exists [], r. exact Hr.
      * destruct (IH H) as (pre & post & ->). now exists (c :: pre), post.
  - intros (pre & post & ->).
    induction pre as [|c pre IH].
    + cbn [app]. destruct (sub ++ post) eqn:E.
      * cbn. rewrite orb_false_r. rewrite <- E. apply startswith_app.
      * cbn [contains]. rewrite <- E, startswith_app. reflexivity.
    + cbn [app contains]. rewrite IH. apply orb_true_r.
Qed.

Lemma occurs_inside (sub pre mid post : str) :
  occurs sub mid -> occurs sub (pre ++ mid ++ post).
Proof.
  intros (a & b & ->). exists (pre ++ a), (b ++ post).
  now rewrite <- !app_assoc.
Qed.

Lemma contains_false_inside (sub pre mid post : str) :
  contains sub (pre ++ mid ++ post) = false -> contains sub mid = false.
Proof.
  intros H. destruct (contains sub mid) eqn:E; [|reflexivity].
  apply contains_occurs in E.
  apply (occurs_inside pre post), contains_occurs in E. congruence.
Qed.

(** Without the separator there is nothing to split. *)
Lemma split_without_sep (sep s : str) :
  contains sep s = false -> split sep s = [s].
Proof.
  unfold split. induction s as [|c t IH]; intros H; [reflexivity|].
  cbn [contains] in H. apply orb_false_iff in H. destruct H as [H1 H2].
  cbn [split_from]. rewrite H1, (IH H2). reflexivity.
Qed.

Lemma join_empty_cons (x : str) (l : list str) :
  join [] (x :: l) = x ++ join [] l.
Proof.
  destruct l; cbn [join]; [now rewrite app_nil_r | reflexivity].
Qed.

Lemma join_chars (r : str) : join [] (chars r) = r.
Proof.
  induction r as [|c r IH]; [reflexivity|].
  unfold chars in *. cbn [map]. now rewrite join_empty_cons, IH.
Qed.

(** Replacing one character by another is a pointwise substitution. *)
Lemma replace_char (a b : char) (s : str) :
  replace [a] [b] s = map (fun x => if (a =? x)%N then b else x) s.
Proof.
  unfold replace. induction s as [|c t IH]; [reflexivity|].
  cbn [replace_from startswith map length Nat.pred].
  destruct (a =? c)%N; cbn [andb]; [destruct t|]; cbn [app]; now rewrite IH.
Qed.

Lemma in_replace_from (old new : str) (k : nat) (s : str) (c : char) :
  In c (replace_from old new k s) -> In c new \/ In c s.
Proof.
  revert k. induction s as [|x t IH]; intros k H; [contradiction|].
  cbn [replace_from] in H. destruct k as [|k].
  - destruct (startswith old (x :: t)).
    + apply in_app_or in H. destruct H as [H|H]; [now left|].
      destruct (IH _ H); [now left | right; now right].
    + destruct H as [H|H]; [right; now left|].
      destruct (IH _ H); [now left | right; now right].
  - destruct (IH _ H); [now left | right; now right].
Qed.

Lemma in_replace (old new s : str) (c : char) :
  old <> [] -> In c (replace old new s) -> In c new \/ In c s.
Proof.
  intros Hold. unfold replace. destruct old; [congruence|].
  apply in_replace_from.
Qed.

Lemma in_split_ws (s t : str) (c : char) :
  In t (split_ws s) -> In c t -> In c s.
Proof.
  revert t. induction s as [|x s IH]; intros t Ht Hc; [contradiction|].
  cbn [split_ws] in Ht. destruct (isspace_char x).
  - right. eapply IH; eauto.
  - destruct s as [|d s'].
    + destruct Ht as [<-|[]]. exact Hc.
    + destruct (isspace_char d).
      * destruct Ht as [<-|Ht].
        -- destruct Hc as [<-|[]]. now left.
        -- right. eapply IH; eauto.
      * destruct (split_ws (d :: s')) as [|h r] eqn:E.
        -- destruct Ht as [<-|[]]. destruct Hc as [<-|[]]. now left.
        -- destruct Ht as [<-|Ht].
           ++ destruct Hc as [<-|Hc]; [now left|].
              right. apply (IH h); [now left | exact Hc].
           ++ right. apply (IH t); [now right | exact Hc].
Qed.

Lemma lstrip_suffix (s : str) : exists pre, s = pre ++ lstrip s.
Proof.
  induction s as [|c t [pre IH]]; [now exists []|].
  cbn [lstrip]. destruct (isspace_char c).
  - exists (c :: pre). cbn. now rewrite <- IH.
  - now exists [].
Qed.

Lemma strip_inside (s : str) : exists pre post, s = pre ++ strip s ++ post.
Proof.
  unfold strip, rstrip.
  destruct (lstrip_suffix s) as [pre Hpre].
  destruct (lstrip_suffix (rev (lstrip s))) as [post Hpost].
  exists pre, (rev post).
  rewrite <- rev_app_distr, <- Hpost, rev_involutive. exact Hpre.
Qed.

Lemma filter_none {A} (f : A -> bool) (l : list A) :
  (forall x, In x l -> f x = false) -> filter f l = [].
Proof.
  induction l as [|x l IH]; intros H; [reflexivity|].
  cbn. rewrite (H x (or_introl eq_refl)). apply IH.
  intros y Hy. apply H. now right.
Qed.

(** ** Translation on a substring match (C8) *)

Lemma first_matching_skip (s : str) (before after : list (str * str))
      (p : str * str) :
  (forall q, In q before -> contains (fst q) s = false) ->
  contains (fst p) s = true ->
  first_matching s (before ++ p :: after) = p.
Proof.
  intros Hb Hp. unfold first_matching.
  rewrite filter_app, (filter_none _ _ Hb). cbn. now rewrite Hp.
Qed.

(** C8. [translate_word_containing_substring] returns the replacement of
    the first pair, in pair order, whose substring occurs in [s], and the
    empty string when no pair's substring occurs; pairs
    [("abc","X"), ("b","Y")] against "xabcx" give "X". *)
Theorem translate_first_match (s : str) (pairs : list (str * str)) :
  (forall before sub rep after,
      pairs = before ++ (sub, rep) :: after ->
      occurs sub s ->
      (forall q, In q before -> ~ occurs (fst q) s) ->
      translate_word_containing_substring s pairs = rep)
  /\ ((forall q, In q pairs -> ~ occurs (fst q) s) ->
      translate_word_containing_substring s pairs = lit "")
  /\ translate_word_containing_substring (lit "xabcx")
       [(lit "abc", lit "X"); (lit "b", lit "Y")] = lit "X".
Proof.
  assert (Hno : forall l : list (str * str),
             (forall q, In q l -> ~ occurs (fst q) s) ->
             forall q, In q l -> contains (fst q) s = false).
  { intros l H q Hq. destruct (contains (fst q) s) eqn:E; [|reflexivity].
    apply contains_occurs in E. now apply H in E. }
  split; [|split].
  - intros before sub rep after -> Hsub Hbefore.
    unfold translate_word_containing_substring.
    rewrite (first_matching_skip s before after (sub, rep)).
    + apply join_chars.
    + now apply Hno.
    + now apply contains_occurs.
  - intros H. unfold translate_word_containing_substring, first_matching.
    rewrite (filter_none _ _ (Hno _ H)). reflexivity.
  - reflexivity.
Qed.

Lemma translate_first_match_witness :
  translate_word_containing_substring (lit "xabcx")
    [(lit "zz", lit "W"); (lit "abc", lit "X"); (lit "b", lit "Y")] = lit "X"
  /\ translate_word_containing_substring (lit "xabcx")
       [(lit "zz", lit "W")] = lit "".
Proof.
  split.
  - apply (proj1 (translate_first_match (lit "xabcx")
                    [(lit "zz", lit "W"); (lit "abc", lit "X"); (lit "b", lit "Y")])
             [(lit "zz", lit "W")] (lit "abc") (lit "X") [(lit "b", lit "Y")]).
    + reflexivity.
    + exists (lit "x"), (lit "x"). reflexivity.
    + intros q [<-|[]] H. apply contains_occurs in H. discriminate H.
  - apply (proj1 (proj2 (translate_first_match (lit "xabcx")
                           [(lit "zz", lit "W")]))).
    intros q [<-|[]] H. apply contains_occurs in H. discriminate H.
Defined.

(** ** Year-month-day strings that are already canonical (C7) *)

Section Properties.

Variable U : UCD.

(** C7. A string without a period that splits on '-' into exactly three
    components, the first of length 4, is returned unchanged by
    [format_date_string_y_m_d]: no reformatting, no calendar check. *)
Theorem y_m_d_dashed_unchanged (s a b c : str) :
  contains (lit ".") s = false ->
  split (lit "-") s = [a; b; c] ->
  length a = 4%nat ->
  format_date_string_y_m_d U s = Return (Some s).
Proof.
  intros Hdot Hsplit Hlen.
  assert (Hdash : contains (lit "-") s = true).
  { destruct (contains (lit "-") s) eqn:E; [reflexivity|].
    rewrite (split_without_sep _ _ E) in Hsplit. discriminate. }
  unfold format_date_string_y_m_d, split_date.
  rewrite Hdot, Hsplit, Hdash. cbn. rewrite Hlen. reflexivity.
Qed.

(** ** Refiners (C3, C10) *)

Lemma int_of_str_raises (s : str) (e : exn) :
  int_of_str U s = Raise e -> e = ValueError.
Proof.
  unfold int_of_str.
  destruct (match rev (drop_while _ (rev (drop_while _ s))) with
            | [] => _ | _ => _ end) as [negative body].
  destruct (digits_from U 0 false body); [|congruence].
  destruct (_ <? _)%nat; congruence.
Qed.

Lemma try_int_total (s : str) :
  exists z, try_except (int_of_str U s) is_ValueError (Return 0%Z) = Return z.
Proof.
  destruct (int_of_str U s) as [z|e] eqn:E; cbn.
  - now exists z.
  - rewrite (int_of_str_raises _ E). cbn. now exists 0%Z.
Qed.

Lemma isdigit_has_digit (x : str) :
  isdigit U x = true -> exists c, In c x /\ isdigit_char U c = true.
Proof.
  destruct x as [|c x]; [discriminate|].
  cbn. intros H. apply andb_true_iff in H. exists c. split; [now left | tauto].
Qed.

(** A text without digits has no numeric token. *)
Lemma digit_tokens_none (s : str) :
  existsb (isdigit_char U) s = false ->
  digit_tokens U (split_ws (replace (lit ",") (lit ".") s)) = [].
Proof.
  intros Hs. apply filter_none. intros t Ht.
  destruct (isdigit U (replace (lit ".") (lit "") t)) eqn:E; [|reflexivity].
  exfalso. apply isdigit_has_digit in E. destruct E as (c & Hc & Hd).
  apply in_replace in Hc; [|discriminate].
  destruct Hc as [[]|Hc].
  apply (in_split_ws _ _ _ Ht), in_replace in Hc; [|discriminate].
  destruct Hc as [[<-|[]]|Hc]; [discriminate Hd|].
  assert (existsb (isdigit_char U) s = true) by (apply existsb_exists; eauto).
  congruence.
Qed.

(** C3. The three refiners never raise; on a string that contains no
    digit, [refine_integer] and [refine_mileage] return 0 and
    [refine_price_val] returns "0".  A digit is a character for which
    [str.isdigit] holds, the test the refiners use. *)
Theorem refiners_never_raise (s : str) :
  (exists z, refine_integer U s = Return z)
  /\ (exists z, refine_mileage U s = Return z)
  /\ (exists r, refine_price_val U s = Return r)
  /\ (existsb (isdigit_char U) s = false ->
      refine_integer U s = Return 0%Z
      /\ refine_mileage U s = Return 0%Z
      /\ refine_price_val U s = Return (lit "0")).
Proof.
  split; [apply try_int_total|].
  split; [apply try_int_total|].
  split; [eexists; reflexivity|].
  intros H.
  unfold refine_integer, refine_mileage, refine_price_val.
  rewrite (digit_tokens_none _ H). repeat split.
Qed.

Lemma comma_to_period_keeps_cm (s : str) :
  contains (lit "cm") s = false ->
  contains (lit "cm") (replace (lit ",") (lit ".") s) = false.
Proof.
  intros H.
  destruct (contains (lit "cm") (replace (lit ",") (lit ".") s)) eqn:E;
    [|reflexivity].
  exfalso. apply contains_occurs in E. destruct E as (pre & post & E).
  change (lit ",") with [44%N] in E. change (lit ".") with [46%N] in E.
  rewrite replace_char in E.
  change (lit "cm" ++ post) with (99%N :: 109%N :: post) in E.
  apply map_eq_app in E. destruct E as (l1 & l2 & -> & _ & E).
  apply map_eq_cons in E. destruct E as (x & l3 & -> & Hx & E).
  apply map_eq_cons in E. destruct E as (y & l4 & -> & Hy & _).
  assert (x = 99%N) by (destruct (44 =? x)%N; [discriminate | exact Hx]).
  assert (y = 109%N) by (destruct (44 =? y)%N; [discriminate | exact Hy]).
  subst x y.
  assert (contains (lit "cm") (l1 ++ 99%N :: 109%N :: l4) = true).
  { apply contains_occurs. now exists l1, l4. }
  congruence.
Qed.

(** C10. On an input that does not contain "cm" [refine_eng_capacity]
    returns 0, whatever digits the input holds: [split('cm')[:-1]] is then
    empty. *)
Theorem eng_capacity_without_cm (s : str) :
  contains (lit "cm") s = false ->
  refine_eng_capacity U s = Return 0%Z.
Proof.
  intros H. unfold refine_eng_capacity.
  destruct (strip_inside (replace (lit ",") (lit ".") s)) as (pre & post & E).
  apply comma_to_period_keeps_cm in H. rewrite E in H.
  apply contains_false_inside in H.
  rewrite (split_without_sep _ _ H). reflexivity.
Qed.

End Properties.

Lemma y_m_d_dashed_unchanged_witness :
  format_date_string_y_m_d basic_latin (lit "2021-13-45")
  = Return (Some (lit "2021-13-45")).
Proof.
  apply (@y_m_d_dashed_unchanged basic_latin (lit "2021-13-45")
           (lit "2021") (lit "13") (lit "45")); reflexivity.
Defined.

Lemma refiners_never_raise_witness :
  refine_integer basic_latin (lit "brak danych") = Return 0%Z
  /\ refine_mileage basic_latin (lit "brak danych") = Return 0%Z
  /\ refine_price_val basic_latin (lit "brak danych") = Return (lit "0").
Proof.
  apply (proj2 (proj2 (proj2
           (refiners_never_raise basic_latin (lit "brak danych"))))).
  reflexivity.
Defined.

Lemma eng_capacity_without_cm_witness :
  refine_eng_capacity basic_latin (lit "1598") = Return 0%Z.
Proof.
  apply (@eng_capacity_without_cm basic_latin (lit "1598")). reflexivity.
Defined.

(** ** Decorators (C4) *)

Lemma contained_kinds (e : exn) :
  contained e = true <->
  e = TimeoutException \/ e = NoSuchElementException
  \/ e = ElementNotInteractableException.
Proof.
  split.
  - destruct e; cbn; intros H; try discriminate; auto.
  - intros [->|[->| ->]]; reflexivity.
Qed.

(** C4. Each of the three decorators returns the wrapped function's value
    unmodified when it does not raise, maps exactly the failure kinds
    timeout, not-found and not-interactable to its sentinel ([None], the
    empty list, the empty string), and lets any other exception through
    unchanged. *)
Theorem decorators_contain_three_kinds
        (Args : Type) (func : Args -> result value) (args : Args) :
  (forall v, func args = Return v ->
     wait_for func args = Return v
     /\ wait_for_list func args = Return v
     /\ get_func_or_eptstr func args = Return v)
  /\ (forall e, func args = Raise e ->
        (e = TimeoutException \/ e = NoSuchElementException
         \/ e = ElementNotInteractableException) ->
        wait_for func args = Return VNone
        /\ wait_for_list func args = Return (VList [])
        /\ get_func_or_eptstr func args = Return (VStr (lit "")))
  /\ (forall e, func args = Raise e ->
        ~ (e = TimeoutException \/ e = NoSuchElementException
           \/ e = ElementNotInteractableException) ->
        wait_for func args = Raise e
        /\ wait_for_list func args = Raise e
        /\ get_func_or_eptstr func args = Raise e).
Proof.
  unfold wait_for, wait_for_list, get_func_or_eptstr.
  split; [|split].
  - intros v ->. cbn. auto.
  - intros e -> He. apply contained_kinds in He. cbn. rewrite He. auto.
  - intros e -> He. cbn.
    destruct (contained e) eqn:E; [|auto].
    apply contained_kinds in E. contradiction.
Qed.

Lemma decorators_contain_three_kinds_witness :
  (wait_for (fun _ : unit => Return (VElement 7)) tt = Return (VElement 7))
  /\ (wait_for_list (fun _ : unit => Raise (A:=value) TimeoutException) tt
      = Return (VList []))
  /\ (get_func_or_eptstr (fun _ : unit => Raise (A:=value) WebDriverException) tt
      = Raise WebDriverException).
Proof.
  split; [|split].
  - apply (proj1 (decorators_contain_three_kinds
                    (fun _ : unit => Return (VElement 7)) tt)).
    reflexivity.
  - apply (proj1 (proj2 (decorators_contain_three_kinds
                    (fun _ : unit => Raise (A:=value) TimeoutException) tt))
             TimeoutException); [reflexivity | now left].
  - apply (proj2 (proj2 (decorators_contain_three_kinds
                    (fun _ : unit => Raise (A:=value) WebDriverException) tt))
             WebDriverException); [reflexivity|].
    intros [H|[H|H]]; discriminate H.
Defined.

(** ** Hashes (C9) *)

Lemma byte_of_to_N (b : byte) : byte_of_N (Byte.to_N b) = b.
Proof.
  unfold byte_of_N.
  rewrite N.mod_small by (pose proof (Byte.to_N_bounded b); lia).
  now rewrite Byte.of_to_N.
Qed.

Lemma bytes_of_ints_bytes (d : list byte) :
  bytes_of_ints (map (fun b => Z.of_N (Byte.to_N b)) d) = Return d.
Proof.
  induction d as [|b d IH]; [reflexivity|].
  cbn [map bytes_of_ints].
  pose proof (Byte.to_N_bounded b) as Hb.
  replace ((0 <=? Z.of_N (Byte.to_N b)) && (Z.of_N (Byte.to_N b) <? 256))%Z
    with true by (symmetry; apply andb_true_iff; split; lia).
  rewrite IH. cbn. now rewrite N2Z.id, byte_of_to_N.
Qed.

Section HashProperties.

Variable md5_digest : list byte -> list byte.

(** C9. With an empty salt and a zero shift [calculate_hash] is
    [calculate_md5]; the shift acts modulo 256, so adding 256 to it changes
    nothing. *)
Theorem calculate_hash_shift (text salt : str) (shift : Z) :
  calculate_hash md5_digest text (lit "") 0 = calculate_md5 md5_digest text
  /\ calculate_hash md5_digest text salt (shift + 256)
     = calculate_hash md5_digest text salt shift.
Proof.
  split.
  - unfold calculate_hash, calculate_md5, md5_hexdigest.
    change (lit "") with (@nil char). rewrite app_nil_r.
    destruct (utf8_encode text) as [data|e]; [|reflexivity].
    cbn [bind].
    rewrite (map_ext _ (fun b => Z.of_N (Byte.to_N b))).
    + now rewrite bytes_of_ints_bytes.
    + intros b. rewrite Z.add_0_r. apply Z.mod_small.
      pose proof (Byte.to_N_bounded b). lia.
  - unfold calculate_hash.
    destruct (utf8_encode (text ++ salt)) as [data|e]; [|reflexivity].
    cbn [bind]. f_equal. f_equal.
    apply map_ext. intros b.
    rewrite Z.add_assoc.
    rewrite <- (Z.mul_1_l 256) at 1.
    apply Z.mod_add. discriminate.
Qed.

(** ** Waiting for the page to settle (C5) *)

Variable seconds : Type.

Local Open Scope itree_scope.

(** C5. [buffer_until_page_fully_loaded] computes the page fingerprint
    once and returns: the loop is entered with [changed = False], so its
    body never runs.  The function is the tree "one fingerprint, then
    return None"; played against any driver it reads the page source once,
    never sleeps, and returns None as soon as the fingerprint is there. *)
Theorem buffer_until_page_fully_loaded_skips_loop
        (tsleep : seconds) (driver : nat -> result str) (fuel : nat) :
  (forall md5 : str,
      ITree.iter (loop_body md5_digest tsleep) (md5, false) ≅ Ret tt)
  /\ buffer_until_page_fully_loaded md5_digest tsleep
     ≅ (md5 <- page_fingerprint md5_digest seconds ;; Ret tt)
  /\ run (4 + fuel) driver 0 [] (buffer_until_page_fully_loaded md5_digest tsleep)
     = Some (let* src := driver 0%nat in
             let* md5 := calculate_md5 md5_digest src in
             Return tt,
             [Read seconds]).
Proof.
  assert (Hloop : forall md5 : str,
             ITree.iter (loop_body md5_digest tsleep) (md5, false) ≅ Ret tt).
  { intros md5. rewrite unfold_iter. cbn. rewrite bind_ret_l. reflexivity. }
  split; [exact Hloop|]. split.
  - unfold buffer_until_page_fully_loaded.
    apply eqit_bind; [reflexivity|].
    intros md5. apply Hloop.
  - unfold calculate_md5, buffer_until_page_fully_loaded, page_fingerprint.
    simpl. destruct (driver 0%nat) as [src|e]; [|reflexivity].
    destruct (utf8_encode src) as [data|e] eqn:E;
      simpl; rewrite E; reflexivity.
Qed.

End HashProperties.

(** ** Normalization (C6) *)

Lemma startswith_firstn (p s : str) (k : nat) :
  startswith p (firstn k s) = true -> startswith p s = true.
Proof.
  revert s k. induction p as [|a p IH]; intros s k H; [reflexivity|].
  destruct s as [|b s]; [now rewrite firstn_nil in H|].
  destruct k as [|k]; [discriminate|].
  cbn in H |- *. apply andb_true_iff in H. destruct H as [-> H].
  now rewrite (IH _ _ H).
Qed.

(** The part of a string before the first occurrence of [sub] does not
    contain [sub]. *)
Lemma find_before_first (sub s : str) (i : nat) :
  sub <> [] -> find sub s = Some i -> find sub (firstn i s) = None.
Proof.
  intros Hsub. revert i. induction s as [|c t IH]; intros i H.
  - cbn in H. destruct sub; [congruence | discriminate].
  - cbn [find] in H. destruct (startswith sub (c :: t)) eqn:E.
    + injection H as <-. cbn. destruct sub; [congruence | reflexivity].
    + destruct (find sub t) as [j|] eqn:F; [|discriminate].
      injection H as <-. cbn [firstn find].
      destruct (startswith sub (c :: firstn j t)) eqn:E'.
      * apply (startswith_firstn sub (c :: t) (S j)) in E'. congruence.
      * now rewrite (IH j eq_refl).
Qed.

Lemma replace_whole_char (i : char) (n : str) : replace [i] n [i] = n.
Proof.
  unfold replace. cbn. rewrite N.eqb_refl. cbn. apply app_nil_r.
Qed.

Section Normalization.

Variable U : UCD.

Lemma normalize_string_cons (c : char) (s : str) :
  normalize_string U (c :: s)
  = let* n := normalize_char U c in
    let* r := normalize_string U s in
    Return (n ++ r).
Proof.
  unfold normalize_string. cbn [map_result].
  destruct (normalize_char U c) as [n|e]; [|reflexivity].
  cbn [bind]. rewrite replace_whole_char.
  destruct (map_result _ s) as [parts|e]; [|reflexivity].
  cbn [bind]. change (lit "") with (@nil char).
  now rewrite join_empty_cons.
Qed.

Lemma normalize_string_fixed (r : str) :
  Forall (settled U) r -> normalize_string U r = Return r.
Proof.
  induction 1 as [|d r Hd _ IH]; [reflexivity|].
  rewrite normalize_string_cons, Hd, IH. reflexivity.
Qed.

(** What [unicodedata] has to provide: when the name of a character,
    cut before its first " WITH", resolves, the characters it resolves to
    carry exactly that shortened name. *)
Hypothesis base_characters :
  forall (c : char) (n : str) (i : nat) (r : str),
    ucd_name U c = Some n ->
    find (lit " WITH") n = Some i ->
    ucd_lookup U (firstn i n) = Some r ->
    forall d, In d r -> ucd_name U d = Some (firstn i n).

Lemma normalize_char_settles (c : char) :
  exists r, normalize_char U c = Return r /\ Forall (settled U) r.
Proof.
  assert (Hself : normalize_char U c = Return [c] ->
                  exists r, normalize_char U c = Return r /\ Forall (settled U) r).
  { intros H. exists [c]. split; [exact H|]. now constructor. }
  unfold normalize_char, unicodedata_name, unicodedata_lookup, index in *.
  destruct (ucd_name U c) as [n|] eqn:Hn; [|now apply Hself].
  cbn [bind] in *.
  destruct (find (lit " WITH") n) as [i|] eqn:Hi; [|now apply Hself].
  cbn [bind] in *.
  destruct (ucd_lookup U (firstn i n)) as [r|] eqn:Hr; [|now apply Hself].
  exists r. split; [reflexivity|].
  apply Forall_forall. intros d Hd.
  unfold settled, normalize_char, unicodedata_name, index.
  rewrite (base_characters c Hn Hi Hr d Hd). cbn [bind].
  rewrite (@find_before_first (lit " WITH") n i); [reflexivity| |exact Hi].
  discriminate.
Qed.

Lemma normalize_string_settles (s : str) :
  exists r, normalize_string U s = Return r /\ Forall (settled U) r.
Proof.
  induction s as [|c s (r & Hr & Hs)].
  - exists []. split; [reflexivity | constructor].
  - destruct (normalize_char_settles c) as (n & Hn & Hsn).
    exists (n ++ r). split.
    + now rewrite normalize_string_cons, Hn, Hr.
    + apply Forall_app. now split.
Qed.

(** C6. [normalize_string] is idempotent: it returns a string [r] (it
    never raises), and normalizing [r] again returns [r]. *)
Theorem normalize_string_idempotent (s : str) :
  exists r, normalize_string U s = Return r
            /\ normalize_string U r = normalize_string U s.
Proof.
  destruct (normalize_string_settles s) as (r & Hr & Hs).
  exists r. split; [exact Hr|].
  rewrite Hr. now apply normalize_string_fixed.
Qed.

End Normalization.

Lemma accents_base_characters :
  forall (c : char) (n : str) (i : nat) (r : str),
    ucd_name accents c = Some n ->
    find (lit " WITH") n = Some i ->
    ucd_lookup accents (firstn i n) = Some r ->
    forall d, In d r -> ucd_name accents d = Some (firstn i n).
Proof.
  intros c n i r Hn Hi Hr d Hd. cbn in Hn.
  destruct (c =? 233)%N.
  - injection Hn as <-. vm_compute in Hi. injection Hi as <-.
    vm_compute in Hr. injection Hr as <-.
    destruct Hd as [<-|[]]. reflexivity.
  - destruct (c =? 101)%N; [injection Hn as <-; vm_compute in Hi; discriminate|].
    destruct (c =? 99)%N; [injection Hn as <-; vm_compute in Hi; discriminate|].
    discriminate.
Qed.

Lemma normalize_string_idempotent_witness :
  exists r, normalize_string accents [99; 233; 33]%N = Return r
            /\ normalize_string accents r
               = normalize_string accents [99; 233; 33]%N.
Proof.
  exact (@normalize_string_idempotent accents accents_base_characters [99; 233; 33]%N).
Defined.

(** ** Decimals (C2) *)

Lemma rescale_exponent (d : Decimal) (e : Z) : dexp (rescale d e) = e.
Proof. unfold rescale. now destruct (e <=? dexp d)%Z. Qed.

(** Rounding to a coarser exponent is to the nearest multiple of the new
    unit, a tie going to the even coefficient. *)
Lemma rescale_half_even (d : Decimal) (e : Z) :
  (dexp d < e)%Z ->
  let unit := (10 ^ Z.to_N (e - dexp d))%N in
  let c := dcoeff (rescale d e) in
  (2 * (c * unit) <= 2 * dcoeff d + unit
   /\ 2 * dcoeff d <= 2 * (c * unit) + unit
   /\ (2 * (dcoeff d mod unit) = unit -> N.even c = true))%N.
Proof.
  intros He. unfold rescale.
  replace (e <=? dexp d)%Z with false by (symmetry; apply Z.leb_gt; exact He).
  cbn zeta. cbn [dcoeff].
  set (u := (10 ^ Z.to_N (e - dexp d))%N).
  assert (Hu : (u <> 0)%N) by (apply N.pow_nonzero; discriminate).
  pose proof (N.div_mod (dcoeff d) u Hu) as Hdm.
  pose proof (N.mod_lt (dcoeff d) u Hu) as Hlt.
  set (q := (dcoeff d / u)%N) in *. set (r := (dcoeff d mod u)%N) in *.
  destruct (u <? 2 * r)%N eqn:E1; cbn [orb].
  - apply N.ltb_lt in E1. repeat split; try nia.
  - apply N.ltb_ge in E1.
    destruct (2 * r =? u)%N eqn:E2; cbn [andb].
    + apply N.eqb_eq in E2. destruct (N.odd q) eqn:E3.
      * repeat split; try nia.
        intros _. rewrite N.add_1_r, N.even_succ. exact E3.
      * repeat split; try nia.
        intros _. now rewrite <- N.negb_odd, E3.
    + apply N.eqb_neq in E2. repeat split; nia.
Qed.

Section DecimalProperties.

Variable U : UCD.

Lemma Decimal_of_str_raises (s : str) (e : exn) :
  Decimal_of_str U s = Raise e -> e = InvalidOperation.
Proof.
  unfold Decimal_of_str.
  destruct (match replace _ _ (strip s) with [] => _ | _ => _ end)
    as [negative v1].
  destruct (span_digits U v1) as [intpart v2].
  destruct (match v2 with [] => _ | _ => _ end) as [fracpart v3].
  destruct (intpart ++ fracpart); [congruence|].
  destruct (exponent_part U v3); congruence.
Qed.

Lemma quantize_raises (d q : Decimal) (e : exn) :
  quantize d q = Raise e -> e = InvalidOperation.
Proof.
  unfold quantize.
  repeat match goal with
         | |- context [if ?b then _ else _] => destruct b
         end; congruence.
Qed.

Lemma quantize_exponent (d q r : Decimal) :
  quantize d q = Return r -> dexp r = dexp q.
Proof.
  unfold quantize.
  repeat match goal with
         | |- context [if ?b then _ else _] => destruct b
         end; intros H; try discriminate; injection H as <-;
    [reflexivity | apply rescale_exponent].
Qed.

(** The quantum for a precision from 1 to 20 is 10^-p. *)
Lemma quantum_of_precision (p : N) :
  (1 <= p <= 20)%N ->
  Decimal_of_str U (str_of_reciprocal_pow10 p)
  = Return {| dsign := false; dcoeff := 1; dexp := - Z.of_N p |}.
Proof.
  intros Hp. rewrite <- (N2Nat.id p).
  assert (Hn : (1 <= N.to_nat p <= 20)%nat) by lia.
  clear Hp. generalize dependent (N.to_nat p). intros n Hn.
  do 21 (destruct n as [|n]; [try lia; vm_compute; reflexivity|]).
  lia.
Qed.

Variable float_reciprocal_pow10 : Z -> float_text.

Lemma quantum_text_raises (p : Z) (e : exn) :
  quantum_text float_reciprocal_pow10 p = Raise e ->
  e = ZeroDivisionError \/ e = OverflowError.
Proof.
  unfold quantum_text. destruct (p <? 0)%Z; [|discriminate].
  destruct (float_reciprocal_pow10 p); intros H; inversion H; auto.
Qed.

(** With a precision from 1 to 20 the function is: zero, or the parsed
    text, quantized to 10^-p. *)
Lemma prep_decimal_unfolded (s : str) (p : Z) :
  (1 <= p <= 20)%Z ->
  prep_decimal_from_string U float_reciprocal_pow10 s p
  = if negb (isdigit U (replace (lit ".") (lit "") s))
    then quantize {| dsign := false; dcoeff := 0; dexp := 0 |}
                  {| dsign := false; dcoeff := 1; dexp := - p |}
    else let* d := Decimal_of_str U s in
         quantize d {| dsign := false; dcoeff := 1; dexp := - p |}.
Proof.
  intros Hp. unfold prep_decimal_from_string, quantum_text.
  replace (20 <? p)%Z with false by (symmetry; apply Z.ltb_ge; lia).
  replace (p <? 0)%Z with false by (symmetry; apply Z.ltb_ge; lia).
  cbn [bind].
  rewrite (@quantum_of_precision (Z.to_N p)) by lia.
  rewrite Z2N.id by lia.
  destruct (negb _); [reflexivity|].
  destruct (Decimal_of_str U s); reflexivity.
Qed.

(** C2, as the code has it.  [prep_decimal_from_string] raises ValueError
    exactly when the precision exceeds 20, for every integer precision.
    For a precision from 1 to 20: a text that, periods removed, is not all
    digits gives zero with exactly that many fractional digits; a text
    that is all digits and that [Decimal] parses gives what [quantize]
    (half-even) to 10^-precision gives for the parsed value, and [quantize]
    raises nothing but decimal.InvalidOperation; every Decimal returned
    has exactly that many fractional digits. *)
Theorem prep_decimal_contract (s : str) (p : Z) :
  (prep_decimal_from_string U float_reciprocal_pow10 s p = Raise ValueError
   <-> (20 < p)%Z)
  /\ ((1 <= p <= 20)%Z ->
      (isdigit U (replace (lit ".") (lit "") s) = false ->
       prep_decimal_from_string U float_reciprocal_pow10 s p
       = Return {| dsign := false; dcoeff := 0; dexp := - p |})
      /\ (forall d,
            isdigit U (replace (lit ".") (lit "") s) = true ->
            Decimal_of_str U s = Return d ->
            prep_decimal_from_string U float_reciprocal_pow10 s p
            = quantize d {| dsign := false; dcoeff := 1; dexp := - p |}
            /\ (forall e,
                  prep_decimal_from_string U float_reciprocal_pow10 s p
                  = Raise e -> e = InvalidOperation))
      /\ (forall r,
            prep_decimal_from_string U float_reciprocal_pow10 s p = Return r ->
            dexp r = (- p)%Z)).
Proof.
  split.
  - split.
    + intros H. destruct (Z.ltb_spec 20 p) as [Hlt|Hle]; [exact Hlt|].
      exfalso. revert H. unfold prep_decimal_from_string.
      replace (20 <? p)%Z with false by (symmetry; apply Z.ltb_ge; exact Hle).
      destruct (quantum_text float_reciprocal_pow10 p) as [precision|e0] eqn:Eq;
        cbn [bind];
        [|destruct (quantum_text_raises _ Eq) as [-> | ->]; discriminate].
      assert (Hq : forall d, (let* quantum := Decimal_of_str U precision in
                              quantize d quantum) <> Raise ValueError).
      { intros d.
        destruct (Decimal_of_str U precision) as [q|e0] eqn:Ep; cbn [bind].
        - intros H. apply quantize_raises in H. discriminate.
        - rewrite (Decimal_of_str_raises _ Ep). discriminate. }
      destruct (negb _).
      * destruct (Decimal_of_str U (lit "0")) as [z|e0] eqn:Ez; cbn [bind];
          [apply Hq | rewrite (Decimal_of_str_raises _ Ez); discriminate].
      * destruct (Decimal_of_str U s) as [z|e0] eqn:Ez; cbn [bind];
          [apply Hq | rewrite (Decimal_of_str_raises _ Ez); discriminate].
    + intros H. unfold prep_decimal_from_string.
      apply Z.ltb_lt in H. now rewrite H.
  - intros Hp. rewrite (prep_decimal_unfolded s Hp). split; [|split].
    + intros Hd. rewrite Hd. cbn [negb].
      unfold quantize. cbn [dexp dcoeff dsign].
      replace (negb _) with false; [reflexivity|].
      symmetry. apply negb_false_iff, andb_true_iff.
      unfold context_Etiny, context_Emax. split; lia.
    + intros d Hdigit Hd. rewrite Hdigit, Hd. cbn [negb bind].
      split; [reflexivity|]. intros e. apply quantize_raises.
    + intros r. destruct (negb _).
      * intros H. now rewrite (quantize_exponent _ _ H).
      * destruct (Decimal_of_str U s) as [d0|e0]; cbn [bind]; [|discriminate].
        intros H. now rewrite (quantize_exponent _ _ H).
Qed.

End DecimalProperties.

Lemma prep_decimal_contract_witness :
  prep_decimal_from_string basic_latin float_path_unused (lit "brak") 2
  = Return {| dsign := false; dcoeff := 0; dexp := -2 |}
  /\ prep_decimal_from_string basic_latin float_path_unused (lit "12.355") 2
     = Return {| dsign := false; dcoeff := 1236; dexp := -2 |}.
Proof.
  split.
  - apply (proj1 (proj2 (@prep_decimal_contract basic_latin float_path_unused
                           (lit "brak") 2%Z)
                    ltac:(lia))).
    reflexivity.
  - rewrite (proj1 (proj1 (proj2 (proj2 (@prep_decimal_contract basic_latin
                                     float_path_unused (lit "12.355") 2%Z)
                             ltac:(lia)))
                      {| dsign := false; dcoeff := 12355; dexp := -3 |}
                      eq_refl eq_refl)).
    reflexivity.
Defined.

(** C2 as stated fails: with precision 20 the text "123456789" is all
    digits and parses, but quantized to 10^-20 it needs 29 digits, one more
    than the context holds, and [quantize] raises
    decimal.InvalidOperation. *)
Lemma prep_decimal_too_many_digits :
  (20 <= 20)%Z
  /\ prep_decimal_from_string basic_latin float_path_unused
       (lit "123456789") 20
     = Raise InvalidOperation.
Proof. split; [lia | reflexivity]. Qed.

(** More runs: eight integer digits still fit at precision 20; precision 0
    has the quantum [str(1 / 1)], which is "1.0"; precision -1 takes the
    float path, here with the text that [str(1 / (10 ** -1))] prints; and a
    division by zero on that path leaves the function as it is. *)
Example prep_decimal_other_inputs :
  prep_decimal_from_string basic_latin float_path_unused (lit "12345678") 20
  = Return {| dsign := false; dcoeff := 12345678 * 10 ^ 20; dexp := -20 |}
  /\ prep_decimal_from_string basic_latin float_path_unused (lit "5") 0
     = Return {| dsign := false; dcoeff := 50; dexp := -1 |}
  /\ prep_decimal_from_string basic_latin (fun _ => Printed (lit "10.0"))
       (lit "5") (-1)
     = Return {| dsign := false; dcoeff := 50; dexp := -1 |}
  /\ prep_decimal_from_string basic_latin (fun _ => DivisionByZero)
       (lit "5") (-324)
     = Raise ZeroDivisionError.
Proof. repeat split; reflexivity. Qed.

(** ** Date parsers (C1) *)

Section DateProperties.

Variable U : UCD.
Variable TRANSLATE_POLISH_TO_ENGLISH_FULL_CONJ : str -> option Z.
Variable TRANSLATE_POLISH_TO_ENGLISH_FULL : str -> option Z.

Lemma getitem_nth {A} (l : list A) (i : nat) (x : A) :
  nth_error l i = Some x -> getitem l i = Return x.
Proof. unfold getitem. now intros ->. Qed.

Lemma getitem_out {A} (l : list A) (i : nat) :
  nth_error l i = None -> getitem l i = Raise IndexError.
Proof. unfold getitem. now intros ->. Qed.

(** C1, as the code has it.  The parsers answer "" without raising on a
    wrong component count (the numeric parsers: the string does not split
    into exactly three parts; the month-name parsers: no token at all; the
    day-month-year form also: no second token, when [int] accepts the last
    token) and on a month name that is not in the table, when [int]
    accepts the year token (and the day token, for the day-month-year
    form) and the year fits a C int. *)
Theorem date_parsers_empty_sentinel (s : str) :
  (length (split_date s) <> 3%nat ->
   format_date_string_d_m_y U s = Return (Some (lit ""))
   /\ format_date_string_y_m_d U s = Return (Some (lit "")))
  /\ (split_ws s = [] ->
      format_date_string_d_mword_y U TRANSLATE_POLISH_TO_ENGLISH_FULL_CONJ s
      = Return (lit "")
      /\ format_date_string_mword_y U TRANSLATE_POLISH_TO_ENGLISH_FULL s
         = Return (lit ""))
  /\ (forall y_token y,
        getlast (split_ws s) = Return y_token ->
        int_of_str U y_token = Return y ->
        (nth_error (split_ws s) 1 = None ->
         format_date_string_d_mword_y U TRANSLATE_POLISH_TO_ENGLISH_FULL_CONJ s
         = Return (lit ""))
        /\ (fits_c_int y = true ->
            (forall m_token d_token d,
                nth_error (split_ws s) 1 = Some m_token ->
                TRANSLATE_POLISH_TO_ENGLISH_FULL_CONJ m_token = None ->
                nth_error (split_ws s) 0 = Some d_token ->
                int_of_str U d_token = Return d ->
                format_date_string_d_mword_y
                  U TRANSLATE_POLISH_TO_ENGLISH_FULL_CONJ s
                = Return (lit ""))
            /\ (forall m_token,
                   nth_error (split_ws s) 0 = Some m_token ->
                   TRANSLATE_POLISH_TO_ENGLISH_FULL m_token = None ->
                   format_date_string_mword_y
                     U TRANSLATE_POLISH_TO_ENGLISH_FULL s
                   = Return (lit "")))).
Proof.
  split; [|split].
  - intros H. apply Nat.eqb_neq in H.
    unfold format_date_string_d_m_y, format_date_string_y_m_d.
    cbn zeta. now rewrite H.
  - intros H.
    unfold format_date_string_d_mword_y, format_date_string_mword_y.
    now rewrite H.
  - intros y_token y Hlast Hy.
    unfold format_date_string_d_mword_y, format_date_string_mword_y.
    cbn zeta. rewrite Hlast. cbn [bind]. rewrite Hy. cbn [bind].
    split; [|intros Hfit; split].
    + intros H1. now rewrite (getitem_out _ _ H1).
    + intros m_token d_token d H1 Hm H0 Hd.
      rewrite (getitem_nth _ _ H1), (getitem_nth _ _ H0). cbn [bind].
      rewrite Hm, Hd. cbn [bind]. unfold datetime. now rewrite Hfit.
    + intros m_token H0 Hm.
      rewrite (getitem_nth _ _ H0). cbn [bind].
      rewrite Hm. unfold datetime. now rewrite Hfit.
Qed.

End DateProperties.

Lemma date_parsers_empty_sentinel_witness :
  (format_date_string_d_m_y basic_latin (lit "05.2021") = Return (Some (lit ""))
   /\ format_date_string_y_m_d basic_latin (lit "05.2021")
      = Return (Some (lit "")))
  /\ format_date_string_d_mword_y basic_latin only_maja (lit "99999999999")
     = Return (lit "")
  /\ format_date_string_d_mword_y basic_latin only_maja (lit "5 maj 2021")
     = Return (lit "")
  /\ format_date_string_mword_y basic_latin only_maja (lit "maj 2021")
     = Return (lit "").
Proof.
  split; [|split; [|split]].
  - apply (proj1 (@date_parsers_empty_sentinel basic_latin only_maja only_maja
                    (lit "05.2021"))).
    vm_compute. discriminate.
  - apply (proj1 (proj2 (proj2
             (@date_parsers_empty_sentinel basic_latin only_maja only_maja
                (lit "99999999999")))
             (lit "99999999999") 99999999999%Z eq_refl eq_refl)).
    reflexivity.
  - apply (proj1 (proj2 (proj2 (proj2
             (@date_parsers_empty_sentinel basic_latin only_maja only_maja
                (lit "5 maj 2021")))
             (lit "2021") 2021%Z eq_refl eq_refl) eq_refl)
             (lit "maj") (lit "5") 5%Z); reflexivity.
  - apply (proj2 (proj2 (proj2 (proj2
             (@date_parsers_empty_sentinel basic_latin only_maja only_maja
                (lit "maj 2021")))
             (lit "2021") 2021%Z eq_refl eq_refl) eq_refl)
             (lit "maj")); reflexivity.
Defined.

(** C1 as stated fails: components that are not numbers make the numeric
    parsers raise ValueError (from [strptime]), and the month-name parsers
    too (from [int]), whose handlers only catch IndexError and TypeError. *)
Lemma date_parsers_raise_on_non_numeric :
  format_date_string_d_m_y basic_latin (lit "aa.bb.cccc") = Raise ValueError
  /\ format_date_string_y_m_d basic_latin (lit "cccc.bb.aa") = Raise ValueError
  /\ format_date_string_d_mword_y basic_latin only_maja (lit "x maja rok")
     = Raise ValueError
  /\ format_date_string_mword_y basic_latin only_maja (lit "maja rok")
     = Raise ValueError.
Proof. repeat split. Qed.

(** A year literal of more than 4300 digits is refused by [int], and the
    ValueError leaves the month-name parser. *)
Example year_literal_too_long :
  format_date_string_mword_y basic_latin only_maja
    (lit "xyz " ++ repeat 48%N 4300 ++ lit "2020")
  = Raise ValueError
  /\ format_date_string_mword_y basic_latin only_maja
       (lit "xyz " ++ repeat 48%N 4296 ++ lit "2020")
     = Return (lit "").
Proof. split; vm_compute; reflexivity. Qed.

(** The format of the specification's example. *)
Example d_m_y_example :
  format_date_string_d_m_y basic_latin (lit "05.03.2021")
  = Return (Some (lit "2021-03-05")).
Proof. reflexivity. Qed.

(** * Further properties of the helpers *)

(** ** What the refiners return *)

(** Dropping one character everywhere is a filter. *)
Lemma replace_char_empty (a : char) (s : str) :
  replace [a] [] s = filter (fun x => negb (a =? x)%N) s.
Proof.
  unfold replace. induction s as [|c t IH]; [reflexivity|].
  cbn [replace_from startswith filter length Nat.pred].
  destruct (a =? c)%N; cbn [andb negb app]; [destruct t|]; now rewrite IH.
Qed.

Lemma in_join_empty (l : list str) (c : char) :
  In c (join [] l) -> exists t, In t l /\ In c t.
Proof.
  induction l as [|x l IH]; [contradiction|].
  rewrite join_empty_cons. intros H. apply in_app_or in H.
  destruct H as [H|H].
  - exists x. split; [now left | exact H].
  - destruct (IH H) as (t & Ht & Hc). exists t. split; [now right | exact Hc].
Qed.

Lemma in_drop_while (p : char -> bool) (s : str) (c : char) :
  In c (drop_while p s) -> In c s.
Proof.
  induction s as [|x s IH]; [contradiction|].
  cbn. destruct (p x); intros H; [right; now apply IH | exact H].
Qed.

Section RefinerProperties.

Variable U : UCD.

(** The characters of a numeric token are digits and periods. *)
Lemma digit_token_chars (tokens : list str) (t : str) (c : char) :
  In t (digit_tokens U tokens) -> In c t ->
  c = 46%N \/ isdigit_char U c = true.
Proof.
  unfold digit_tokens. intros Ht Hc.
  apply filter_In in Ht. destruct Ht as [_ Ht].
  change (lit ".") with [46%N] in Ht. change (lit "") with (@nil char) in Ht.
  rewrite replace_char_empty in Ht.
  destruct (46 =? c)%N eqn:E; [left; symmetry; now apply N.eqb_eq|].
  right.
  assert (Hin : In c (filter (fun x => negb (46 =? x)%N) t)).
  { apply filter_In. split; [exact Hc | now rewrite E]. }
  revert Ht Hin. generalize (filter (fun x => negb (46 =? x)%N) t).
  intros [|y f] Ht Hin; [contradiction|].
  cbn [isdigit] in Ht. rewrite forallb_forall in Ht. now apply Ht.
Qed.

Lemma digit_token_nonempty (tokens : list str) (t : str) :
  In t (digit_tokens U tokens) -> t <> [].
Proof.
  unfold digit_tokens. intros Ht ->.
  apply filter_In in Ht. destruct Ht as [_ Ht]. discriminate Ht.
Qed.

Lemma joined_tokens_chars (tokens : list str) (c : char) :
  In c (join (lit "") (digit_tokens U tokens)) ->
  c = 46%N \/ isdigit_char U c = true.
Proof.
  change (lit "") with (@nil char). intros H.
  apply in_join_empty in H. destruct H as (t & Ht & Hc).
  eapply digit_token_chars; eauto.
Qed.

(** A literal without a minus sign is not negative. *)
Lemma int_of_str_unsigned (s : str) (z : Z) :
  ~ In 45%N s -> int_of_str U s = Return z -> (0 <= z)%Z.
Proof.
  intros Hs. unfold int_of_str.
  set (s1 := rev (drop_while (int_space) (rev (drop_while int_space s)))).
  assert (H1 : forall c, In c s1 -> In c s).
  { intros c Hc. unfold s1 in Hc. apply in_rev, in_drop_while in Hc.
    now apply in_rev, in_drop_while in Hc. }
  set (sign := match s1 with
               | 43%N :: r => (false, r)
               | 45%N :: r => (true, r)
               | _ => (false, s1)
               end).
  assert (Hsign : fst sign = false).
  { unfold sign. destruct s1 as [|c r]; [reflexivity|].
    assert (Hc : c <> 45%N) by (intros ->; apply Hs, H1; now left).
    destruct c as [|p]; [reflexivity|].
    do 6 (destruct p as [p|p|]; try reflexivity).
    congruence. }
  destruct sign as [negative body]. cbn in Hsign. subst negative.
  destruct (digits_from U 0 false body); [|discriminate].
  destruct (_ <? _)%nat; intros H; [discriminate|].
  injection H as <-. lia.
Qed.

Lemma try_int_unsigned (tokens : list str) (z : Z) :
  try_except (int_of_str U (join (lit "") (digit_tokens U tokens)))
             is_ValueError (Return 0%Z) = Return z ->
  (0 <= z)%Z.
Proof.
  destruct (int_of_str U _) as [v|e] eqn:E; cbn.
  - intros H. injection H as <-. revert E. apply int_of_str_unsigned.
    intros H. apply joined_tokens_chars in H.
    destruct H as [H|H]; discriminate H.
  - destruct (is_ValueError e); intros H; [|discriminate].
    injection H as <-. lia.
Qed.

(** X1. The integer refiners never return a negative number: a token
    with a sign is not all digits and is dropped. *)
Theorem refiners_non_negative (s : str) (z : Z) :
  (refine_integer U s = Return z -> (0 <= z)%Z)
  /\ (refine_mileage U s = Return z -> (0 <= z)%Z)
  /\ (refine_eng_capacity U s = Return z -> (0 <= z)%Z).
Proof.
  repeat split; apply try_int_unsigned.
Qed.

(** X2. [refine_price_val] returns a non-empty string made of digits and
    periods only: no whitespace, no comma, no sign survives. *)
Theorem refine_price_val_digits_and_periods (s r : str) :
  refine_price_val U s = Return r ->
  r <> [] /\ forall c, In c r -> c = 46%N \/ isdigit_char U c = true.
Proof.
  unfold refine_price_val.
  set (tokens := split_ws (replace (lit ",") (lit ".") s)).
  pose proof (@joined_tokens_chars tokens) as Hchars.
  destruct (join (lit "") (digit_tokens U tokens)) as [|c0 j];
    cbn [str_or]; intros H; injection H as <-.
  - split; [discriminate|].
    intros c [<-|[]]. right. reflexivity.
  - split; [discriminate|]. exact Hchars.
Qed.

Lemma isdigit_one (c : char) : isdigit U [c] = isdigit_char U c.
Proof. cbn. apply andb_true_r. Qed.

Lemma refine_str_to_digit_filter (s : str) :
  refine_str_to_digit U s = filter (isdigit_char U) s.
Proof.
  unfold refine_str_to_digit, chars. change (lit "") with (@nil char).
  induction s as [|c s IH]; [reflexivity|].
  cbn [map filter]. rewrite isdigit_one.
  destruct (isdigit_char U c); [|exact IH].
  now rewrite join_empty_cons, IH.
Qed.

Lemma filter_twice {A} (f : A -> bool) (l : list A) :
  filter f (filter f l) = filter f l.
Proof.
  induction l as [|x l IH]; [reflexivity|].
  cbn. destruct (f x) eqn:E; [cbn; now rewrite E, IH | exact IH].
Qed.

(** X3. [refine_str_to_digit] keeps exactly the digits of its input, in
    order, and a second pass changes nothing; [refine_timedelta], which
    keeps whole tokens, also returns digits only. *)
Theorem digit_extractors (s : str) :
  refine_str_to_digit U s = filter (isdigit_char U) s
  /\ refine_str_to_digit U (refine_str_to_digit U s) = refine_str_to_digit U s
  /\ forallb (isdigit_char U) (refine_timedelta U s) = true.
Proof.
  split; [apply refine_str_to_digit_filter|]. split.
  - now rewrite !refine_str_to_digit_filter, filter_twice.
  - apply forallb_forall. intros c Hc.
    unfold refine_timedelta in Hc. change (lit "") with (@nil char) in Hc.
    apply in_join_empty in Hc. destruct Hc as (t & Ht & Hc).
    apply filter_In in Ht. destruct Ht as [_ Ht].
    destruct t as [|y t]; [discriminate|].
    cbn [isdigit] in Ht. rewrite forallb_forall in Ht. now apply Ht.
Qed.

(** ** Normalization never raises *)

Lemma find_none_contains (sub s : str) :
  contains sub s = false -> find sub s = None.
Proof.
  induction s as [|c t IH]; cbn; intros H.
  - rewrite orb_false_r in H. now rewrite H.
  - apply orb_false_iff in H. destruct H as [-> H]. now rewrite (IH H).
Qed.

Lemma normalize_char_total (c : char) :
  exists r, normalize_char U c = Return r.
Proof.
  unfold normalize_char, unicodedata_name, unicodedata_lookup, index.
  destruct (ucd_name U c) as [n|]; [|now eexists].
  cbn [bind]. destruct (find (lit " WITH") n) as [i|]; [|now eexists].
  cbn [bind]. destruct (ucd_lookup U (firstn i n)); now eexists.
Qed.

Lemma normalize_char_plain (c : char) :
  (forall n, ucd_name U c = Some n -> contains (lit " WITH") n = false) ->
  normalize_char U c = Return [c].
Proof.
  intros H. unfold normalize_char, unicodedata_name, index.
  destruct (ucd_name U c) as [n|]; [|reflexivity].
  cbn [bind]. now rewrite (find_none_contains _ _ (H n eq_refl)).
Qed.

(** X4. [normalize_string] never raises, whatever the tables of
    [unicodedata] hold; and it returns its input unchanged when no
    character of it has a name containing " WITH" (ASCII text, digits,
    punctuation). *)
Theorem normalize_string_never_raises (s : str) :
  (exists r, normalize_string U s = Return r)
  /\ ((forall c n, In c s -> ucd_name U c = Some n ->
                   contains (lit " WITH") n = false) ->
      normalize_string U s = Return s).
Proof.
  split.
  - induction s as [|c s [r IH]]; [now exists []|].
    destruct (normalize_char_total c) as [n Hn].
    exists (n ++ r). now rewrite normalize_string_cons, Hn, IH.
  - intros H. apply normalize_string_fixed. apply Forall_forall.
    intros c Hc. apply normalize_char_plain. intros n. now apply H.
Qed.

(** ** The numeric date parsers can return None *)

(** X5. When the string has three components but the year component has
    neither 2 nor 4 characters, the numeric parsers run off their end and
    return [None], not a string. *)
Theorem numeric_parsers_return_none (s a b c : str) :
  split_date s = [a; b; c] ->
  (length c <> 4%nat -> length c <> 2%nat ->
   format_date_string_d_m_y U s = Return None)
  /\ (length a <> 4%nat -> length a <> 2%nat ->
      format_date_string_y_m_d U s = Return None).
Proof.
  intros Hs. split; intros H4 H2;
    apply Nat.eqb_neq in H4; apply Nat.eqb_neq in H2.
  - unfold format_date_string_d_m_y. cbn zeta. rewrite Hs. cbn.
    rewrite H4, H2.
    repeat match goal with
           | |- context [contains ?x s] => destruct (contains x s)
           end; reflexivity.
  - unfold format_date_string_y_m_d. cbn zeta. rewrite Hs. cbn.
    rewrite H4, H2.
    repeat match goal with
           | |- context [contains ?x s] => destruct (contains x s)
           end; reflexivity.
Qed.

End RefinerProperties.

Lemma refiners_non_negative_witness :
  (0 <= 1234)%Z /\ (0 <= 1598)%Z.
Proof.
  split.
  - apply (proj1 (@refiners_non_negative basic_latin (lit "12 -7 34") 1234%Z)).
    reflexivity.
  - apply (proj2 (proj2 (@refiners_non_negative basic_latin
                           (lit "1 598 cm3") 1598%Z))).
    reflexivity.
Defined.

Lemma refine_price_val_digits_and_periods_witness :
  lit "12.500" <> []
  /\ forall c, In c (lit "12.500") ->
               c = 46%N \/ isdigit_char basic_latin c = true.
Proof.
  apply (@refine_price_val_digits_and_periods basic_latin (lit "12,500 PLN")).
  reflexivity.
Defined.

Lemma normalize_string_never_raises_witness :
  normalize_string accents (lit "cc") = Return (lit "cc").
Proof.
  apply (proj2 (@normalize_string_never_raises accents (lit "cc"))).
  intros c n [<-|[<-|[]]] H; injection H as <-; reflexivity.
Defined.

Lemma numeric_parsers_return_none_witness :
  format_date_string_d_m_y basic_latin (lit "1.2.3") = Return None
  /\ format_date_string_y_m_d basic_latin (lit "1.2.3") = Return None.
Proof.
  split.
  - apply (proj1 (@numeric_parsers_return_none basic_latin (lit "1.2.3")
                    (lit "1") (lit "2") (lit "3") eq_refl)); discriminate.
  - apply (proj2 (@numeric_parsers_return_none basic_latin (lit "1.2.3")
                    (lit "1") (lit "2") (lit "3") eq_refl)); discriminate.
Defined.

(** ** The month-name parsers *)

Lemma getlast_app {A} (l : list A) (y : A) : getlast (l ++ [y]) = Return y.
Proof. unfold getlast. now rewrite rev_app_distr. Qed.

Lemma datetime_inv (y : Z) (m : option Z) (d : Z) (dt : date) :
  datetime y m d = Return dt -> year dt = y /\ m = Some (month dt) /\ day dt = d.
Proof.
  unfold datetime. destruct (negb (fits_c_int y)); [discriminate|].
  destruct m as [m|]; [|discriminate].
  repeat match goal with
         | |- context [if ?b then _ else _] => destruct b
         end; intros H; try discriminate.
  injection H as <-. auto.
Qed.

Lemma datetime_raises (y : Z) (m : option Z) (d : Z) (e : exn) :
  datetime y m d = Raise e ->
  e = OverflowError \/ e = TypeError \/ e = ValueError.
Proof.
  unfold datetime. destruct (negb (fits_c_int y)); [intros [= <-]; auto|].
  destruct m as [m|]; [|intros [= <-]; auto].
  repeat match goal with
         | |- context [if ?b then _ else _] => destruct b
         end; intros H; try discriminate; injection H as <-; auto.
Qed.

Lemma getlast_raises {A} (l : list A) (e : exn) :
  getlast l = Raise e -> e = IndexError.
Proof. unfold getlast. destruct (rev l); congruence. Qed.

Lemma getitem_raises {A} (l : list A) (i : nat) (e : exn) :
  getitem l i = Raise e -> e = IndexError.
Proof. unfold getitem. destruct (nth_error l i); congruence. Qed.

Section MonthNameProperties.

Variable U : UCD.
Variable TRANSLATE_POLISH_TO_ENGLISH_FULL_CONJ : str -> option Z.
Variable TRANSLATE_POLISH_TO_ENGLISH_FULL : str -> option Z.

(** X6. The month-name parsers read the first token(s) and the last one
    only: tokens in between do not change the result. *)
Theorem month_name_parsers_ignore_middle
        (s s' d m y : str) (middle : list str) :
  (split_ws s = d :: m :: middle ++ [y] ->
   split_ws s' = [d; m; y] ->
   format_date_string_d_mword_y U TRANSLATE_POLISH_TO_ENGLISH_FULL_CONJ s
   = format_date_string_d_mword_y U TRANSLATE_POLISH_TO_ENGLISH_FULL_CONJ s')
  /\ (split_ws s = m :: middle ++ [y] ->
      split_ws s' = [m; y] ->
      format_date_string_mword_y U TRANSLATE_POLISH_TO_ENGLISH_FULL s
      = format_date_string_mword_y U TRANSLATE_POLISH_TO_ENGLISH_FULL s').
Proof.
  split; intros Hs Hs';
    unfold format_date_string_d_mword_y, format_date_string_mword_y;
    cbn zeta; rewrite Hs, Hs'.
  - change (d :: m :: middle ++ [y]) with ((d :: m :: middle) ++ [y]).
    rewrite getlast_app. reflexivity.
  - change (m :: middle ++ [y]) with ((m :: middle) ++ [y]).
    rewrite getlast_app. reflexivity.
Qed.

(** X7. [format_date_string_mword_y] answers the empty string or a date
    on the first of a month; the only exceptions that leave the two
    month-name parsers are ValueError and OverflowError. *)
Theorem month_name_parsers_outcomes (s : str) :
  (forall r,
      format_date_string_mword_y U TRANSLATE_POLISH_TO_ENGLISH_FULL s = Return r ->
      r = lit "" \/ exists pre, r = pre ++ lit "-01")
  /\ (forall e,
        format_date_string_mword_y U TRANSLATE_POLISH_TO_ENGLISH_FULL s = Raise e ->
        e = ValueError \/ e = OverflowError)
  /\ (forall e,
        format_date_string_d_mword_y U TRANSLATE_POLISH_TO_ENGLISH_FULL_CONJ s
        = Raise e ->
        e = ValueError \/ e = OverflowError).
Proof.
  unfold format_date_string_d_mword_y, format_date_string_mword_y. cbn zeta.
  set (tokens := split_ws s).
  split; [|split].
  - intros r.
    destruct (getlast tokens) as [y_token|e] eqn:El; cbn [bind];
      [|rewrite (getlast_raises _ El); cbn; intros [= <-]; auto].
    destruct (int_of_str U y_token) as [y|e] eqn:Ey; cbn [bind];
      [|rewrite (int_of_str_raises _ _ Ey); discriminate].
    destruct (getitem tokens 0) as [m_token|e] eqn:Em; cbn [bind];
      [|rewrite (getitem_raises _ _ Em); cbn; intros [= <-]; auto].
    destruct (datetime y _ 1%Z) as [dt|e] eqn:Edt; cbn [bind try_except].
    + intros [= <-]. right.
      apply datetime_inv in Edt. destruct Edt as (_ & _ & Hday).
      unfold strftime_Y_m_d. rewrite Hday.
      exists (str_of_N (Z.to_N (year dt)) ++ lit "-"
              ++ zfill 2 (str_of_N (Z.to_N (month dt)))).
      rewrite <- !app_assoc. reflexivity.
    + destruct (catches_Index_Type e); intros [= <-]; auto.
  - intros e0.
    destruct (getlast tokens) as [y_token|e] eqn:El; cbn [bind];
      [|rewrite (getlast_raises _ El); discriminate].
    destruct (int_of_str U y_token) as [y|e] eqn:Ey; cbn [bind];
      [|rewrite (int_of_str_raises _ _ Ey); cbn; intros [= <-]; auto].
    destruct (getitem tokens 0) as [m_token|e] eqn:Em; cbn [bind];
      [|rewrite (getitem_raises _ _ Em); discriminate].
    destruct (datetime y _ 1%Z) as [dt|e] eqn:Edt; cbn [bind try_except];
      [discriminate|].
    apply datetime_raises in Edt.
    destruct Edt as [->|[->| ->]]; cbn; intros H; try discriminate H;
      injection H as <-; auto.
  - intros e0.
    destruct (getlast tokens) as [y_token|e] eqn:El; cbn [bind];
      [|rewrite (getlast_raises _ El); discriminate].
    destruct (int_of_str U y_token) as [y|e] eqn:Ey; cbn [bind];
      [|rewrite (int_of_str_raises _ _ Ey); cbn; intros [= <-]; auto].
    destruct (getitem tokens 1) as [m_token|e] eqn:Em; cbn [bind];
      [|rewrite (getitem_raises _ _ Em); discriminate].
    destruct (getitem tokens 0) as [d_token|e] eqn:Ed0; cbn [bind];
      [|rewrite (getitem_raises _ _ Ed0); discriminate].
    destruct (int_of_str U d_token) as [d|e] eqn:Ed; cbn [bind];
      [|rewrite (int_of_str_raises _ _ Ed); cbn; intros [= <-]; auto].
    destruct (datetime y _ d) as [dt|e] eqn:Edt; cbn [bind try_except];
      [discriminate|].
    apply datetime_raises in Edt.
    destruct Edt as [->|[->| ->]]; cbn; intros H; try discriminate H;
      injection H as <-; auto.
Qed.

End MonthNameProperties.

Lemma month_name_parsers_ignore_middle_witness :
  format_date_string_d_mword_y basic_latin only_maja (lit "5 maja roku 2021")
  = format_date_string_d_mword_y basic_latin only_maja (lit "5 maja 2021")
  /\ format_date_string_mword_y basic_latin only_maja (lit "maja roku 2021")
     = format_date_string_mword_y basic_latin only_maja (lit "maja 2021").
Proof.
  split.
  - apply (proj1 (@month_name_parsers_ignore_middle basic_latin only_maja
                    only_maja (lit "5 maja roku 2021") (lit "5 maja 2021")
                    (lit "5") (lit "maja") (lit "2021") [lit "roku"]));
      reflexivity.
  - apply (proj2 (@month_name_parsers_ignore_middle basic_latin only_maja
                    only_maja (lit "maja roku 2021") (lit "maja 2021")
                    (lit "5") (lit "maja") (lit "2021") [lit "roku"]));
      reflexivity.
Defined.

Lemma month_name_parsers_outcomes_witness :
  lit "2021-05-01" = lit ""
  \/ exists pre, lit "2021-05-01" = pre ++ lit "-01".
Proof.
  apply (proj1 (@month_name_parsers_outcomes basic_latin only_maja only_maja
                  (lit "maja 2021"))).
  reflexivity.
Defined.

(** ** Rounding in [prep_decimal_from_string] *)

Lemma quantize_value (d q r : Decimal) :
  quantize d q = Return r ->
  r = (if (dcoeff d =? 0)%N
       then {| dsign := dsign d; dcoeff := 0; dexp := dexp q |}
       else rescale d (dexp q)).
Proof.
  unfold quantize.
  destruct (negb _); [discriminate|].
  destruct (dcoeff d =? 0)%N; [now intros [= <-]|].
  repeat match goal with
         | |- context [if ?b then _ else _] => destruct b
         end; intros H; try discriminate. now injection H as <-.
Qed.

Section RoundingProperties.

Variable U : UCD.
Variable float_reciprocal_pow10 : Z -> float_text.

(** X8. For a precision from 1 to 20 and a text that parses, the Decimal
    returned is the parsed value carried to 10^-precision: padded with
    zeros when the text has no more fractional digits than that, rounded
    otherwise to the nearest multiple, a tie going to the even one. *)
Theorem prep_decimal_rounds_half_even (s : str) (p : N) (d r : Decimal) :
  (1 <= p <= 20)%N ->
  isdigit U (replace (lit ".") (lit "") s) = true ->
  Decimal_of_str U s = Return d ->
  prep_decimal_from_string U float_reciprocal_pow10 s (Z.of_N p) = Return r ->
  ((- Z.of_N p <= dexp d)%Z ->
   dcoeff r = (dcoeff d * 10 ^ Z.to_N (dexp d + Z.of_N p))%N)
  /\ ((dexp d < - Z.of_N p)%Z ->
      let unit := (10 ^ Z.to_N (- Z.of_N p - dexp d))%N in
      (2 * (dcoeff r * unit) <= 2 * dcoeff d + unit
       /\ 2 * dcoeff d <= 2 * (dcoeff r * unit) + unit
       /\ (2 * (dcoeff d mod unit) = unit -> N.even (dcoeff r) = true))%N).
Proof.
  intros Hp Hdigit Hd.
  rewrite (@prep_decimal_unfolded U float_reciprocal_pow10 s (Z.of_N p))
    by lia.
  rewrite Hdigit, Hd. cbn [negb bind].
  intros Hq. apply quantize_value in Hq. cbn [dexp] in Hq.
  destruct (dcoeff d =? 0)%N eqn:E0.
  - apply N.eqb_eq in E0. subst r. cbn [dcoeff]. rewrite E0. split.
    + intros _. reflexivity.
    + intros _. cbn zeta.
      assert (Hu : (10 ^ Z.to_N (- Z.of_N p - dexp d) <> 0)%N)
        by (apply N.pow_nonzero; discriminate).
      rewrite N.Div0.mod_0_l. repeat split; lia.
  - subst r. split.
    + intros H. unfold rescale.
      replace (- Z.of_N p <=? dexp d)%Z with true
        by (symmetry; apply Z.leb_le; exact H).
      cbn [dcoeff]. do 3 f_equal. lia.
    + intros H. exact (rescale_half_even d H).
Qed.

End RoundingProperties.

Lemma prep_decimal_rounds_half_even_witness :
  (2 * (1236 * 10) <= 2 * 12355 + 10
   /\ 2 * 12355 <= 2 * (1236 * 10) + 10
   /\ (2 * (12355 mod 10) = 10 -> N.even 1236 = true))%N.
Proof.
  apply (proj2 (@prep_decimal_rounds_half_even basic_latin float_path_unused
                  (lit "12.355") 2
                  {| dsign := false; dcoeff := 12355; dexp := -3 |}
                  {| dsign := false; dcoeff := 1236; dexp := -2 |}
                  ltac:(lia) eq_refl eq_refl eq_refl)).
  reflexivity.
Defined.

(** ** The shape of a hash *)

Lemma utf8_char_raises (c : char) (e : exn) :
  utf8_char c = Raise e -> e = UnicodeEncodeError.
Proof.
  unfold utf8_char.
  repeat match goal with
         | |- context [if ?b then _ else _] => destruct b
         end; intros H; try discriminate; now injection H as <-.
Qed.

Lemma utf8_encode_raises (s : str) (e : exn) :
  utf8_encode s = Raise e -> e = UnicodeEncodeError.
Proof.
  induction s as [|c s IH]; [discriminate|].
  cbn [utf8_encode].
  destruct (utf8_char c) as [b|e0] eqn:Ec; cbn [bind];
    [|intros [= <-]; exact (utf8_char_raises _ Ec)].
  destruct (utf8_encode s) as [r|e0]; cbn [bind]; [discriminate|].
  intros [= <-]. now apply IH.
Qed.

Lemma bytes_of_ints_mod (shift : Z) (d : list byte) :
  exists bs, bytes_of_ints
               (map (fun b => ((Z.of_N (Byte.to_N b) + shift) mod 256)%Z) d)
             = Return bs
             /\ length bs = length d.
Proof.
  induction d as [|b d (bs & Hbs & Hlen)]; [now exists []|].
  cbn [map bytes_of_ints].
  pose proof (Z.mod_pos_bound (Z.of_N (Byte.to_N b) + shift) 256 eq_refl) as Hm.
  replace ((0 <=? _) && (_ <? 256))%Z with true
    by (symmetry; apply andb_true_iff; split; lia).
  rewrite Hbs. cbn [bind]. eexists. split; [reflexivity|].
  cbn. now rewrite Hlen.
Qed.

Lemma hex_digit_range (n : N) :
  (n < 16)%N ->
  (48 <= hex_digit n <= 57 \/ 97 <= hex_digit n <= 102)%N.
Proof.
  intros H. unfold hex_digit. destruct (N.ltb_spec n 10); lia.
Qed.

Lemma hex_shape (data : list byte) :
  length (hex data) = (2 * length data)%nat
  /\ Forall (fun c => (48 <= c <= 57 \/ 97 <= c <= 102)%N) (hex data).
Proof.
  unfold hex. induction data as [|b data [IHl IHf]]; [split; [reflexivity|constructor]|].
  cbn [flat_map app length]. split; [rewrite IHl; lia|].
  pose proof (Byte.to_N_bounded b) as Hb.
  constructor; [|constructor; [|exact IHf]]; apply hex_digit_range.
  - apply N.Div0.div_lt_upper_bound. lia.
  - apply N.mod_lt. discriminate.
Qed.

Section HashShape.

Variable md5_digest : list byte -> list byte.

(** X9. The salt is appended to the text before hashing, and only the
    residue of the shift modulo 256 matters. *)
Theorem calculate_hash_salt_and_residue (text salt : str) (shift shift' : Z) :
  calculate_hash md5_digest text salt shift
  = calculate_hash md5_digest (text ++ salt) (lit "") shift
  /\ ((shift mod 256 = shift' mod 256)%Z ->
      calculate_hash md5_digest text salt shift
      = calculate_hash md5_digest text salt shift').
Proof.
  split.
  - unfold calculate_hash. change (lit "") with (@nil char).
    now rewrite app_nil_r.
  - intros H. unfold calculate_hash.
    destruct (utf8_encode (text ++ salt)) as [data|e]; [|reflexivity].
    cbn [bind]. do 2 f_equal. apply map_ext. intros b.
    rewrite (Z.add_mod _ shift), (Z.add_mod _ shift') by discriminate.
    now rewrite H.
Qed.

(** X10. [calculate_hash] returns two lower-case hexadecimal digits per
    digest byte; the byte shift never takes a value out of [range(256)],
    so the only exception it can raise is the UnicodeEncodeError of
    [encode]. *)
Theorem calculate_hash_shape (text salt : str) (shift : Z) :
  (forall h, calculate_hash md5_digest text salt shift = Return h ->
     exists data, utf8_encode (text ++ salt) = Return data
       /\ length h = (2 * length (md5_digest data))%nat
       /\ Forall (fun c => (48 <= c <= 57 \/ 97 <= c <= 102)%N) h)
  /\ (forall e, calculate_hash md5_digest text salt shift = Raise e ->
        e = UnicodeEncodeError)
  /\ (forall data, utf8_encode (text ++ salt) = Return data ->
        exists h, calculate_hash md5_digest text salt shift = Return h).
Proof.
  unfold calculate_hash.
  destruct (utf8_encode (text ++ salt)) as [data|e0] eqn:E; cbn [bind].
  - destruct (bytes_of_ints_mod shift (md5_digest data)) as (bs & -> & Hlen).
    cbn [bind]. split; [|split].
    + intros h [= <-]. exists data. split; [reflexivity|].
      destruct (hex_shape bs) as [Hl Hf]. split; [now rewrite Hl, Hlen | exact Hf].
    + discriminate.
    + intros _ _. now eexists.
  - split; [discriminate|]. split; [|discriminate].
    intros e [= <-]. exact (utf8_encode_raises _ E).
Qed.

End HashShape.

Lemma calculate_hash_salt_and_residue_witness :
  calculate_hash (fun data => data) (lit "ab") (lit "c") 513
  = calculate_hash (fun data => data) (lit "ab") (lit "c") 1.
Proof.
  apply (proj2 (@calculate_hash_salt_and_residue (fun data => data)
                  (lit "ab") (lit "c") 513 1)).
  reflexivity.
Defined.

Lemma calculate_hash_shape_witness :
  exists data, utf8_encode (lit "ab" ++ lit "c") = Return data
    /\ length (lit "626364") = (2 * length data)%nat
    /\ Forall (fun c => (48 <= c <= 57 \/ 97 <= c <= 102)%N) (lit "626364").
Proof.
  apply (proj1 (@calculate_hash_shape (fun data => data)
                  (lit "ab") (lit "c") 1) (lit "626364")).
  reflexivity.
Defined.

(** ** The first elements of a list *)

Lemma lstrip_snoc_space (a : str) (c : char) :
  isspace_char c = true ->
  lstrip (a ++ [c]) = match lstrip a with [] => [] | _ :: _ => lstrip a ++ [c] end.
Proof.
  intros Hc. induction a as [|x a IH]; cbn [app lstrip].
  - now rewrite Hc.
  - destruct (isspace_char x); [exact IH | reflexivity].
Qed.

Lemma rstrip_snoc_space (a : str) (c : char) :
  isspace_char c = true -> rstrip (a ++ [c]) = rstrip a.
Proof.
  intros Hc. unfold rstrip. rewrite rev_app_distr. cbn. now rewrite Hc.
Qed.

Lemma strip_snoc_space (a : str) (c : char) :
  isspace_char c = true -> strip (a ++ [c]) = strip a.
Proof.
  intros Hc. unfold strip. rewrite lstrip_snoc_space by exact Hc.
  destruct (lstrip a) as [|x l]; [reflexivity|].
  now apply rstrip_snoc_space.
Qed.

Lemma first_n_loop_joined (count : nat) (gen : list str) (s : str) :
  first_n_loop count gen s
  = s ++ match firstn count gen with
         | [] => []
         | _ :: _ => join (lit " ") (firstn count gen) ++ lit " "
         end.
Proof.
  revert gen s. induction count as [|k IH]; intros gen s.
  - cbn. now rewrite app_nil_r.
  - destruct gen as [|x gen]; cbn [first_n_loop firstn].
    + now rewrite app_nil_r.
    + rewrite IH, <- app_assoc. f_equal.
      destruct (firstn k gen) as [|y l] eqn:E.
      * cbn. now rewrite app_nil_r.
      * cbn [join]. now rewrite <- !app_assoc.
Qed.

(** X11. [get_first_n_elem_as_str lst n] is [" ".join(lst[:n]).strip()]
    for a non-negative [n] (the empty string for a negative one): a list
    shorter than [n] simply ends the loop, and with [n = 1] the result is
    the stripped first element. *)
Theorem get_first_n_elem_as_str_joined (lst : list str) (n : Z) :
  get_first_n_elem_as_str lst n
  = strip (join (lit " ") (firstn (Z.to_nat n) lst))
  /\ get_first_n_elem_as_str lst 1 = strip (get_first_elem lst).
Proof.
  assert (H : forall k, strip (first_n_loop k lst (lit ""))
                        = strip (join (lit " ") (firstn k lst))).
  { intros k. rewrite first_n_loop_joined. cbn [app lit map list_ascii_of_string].
    destruct (firstn k lst) as [|x l]; [reflexivity|].
    change (lit " ") with [32%N]. now apply strip_snoc_space. }
  split; [apply H|].
  unfold get_first_n_elem_as_str. rewrite H.
  destruct lst as [|x lst]; reflexivity.
Qed.

(** ** Decorators and accessors *)

Lemma try_except_contained {A} (body handler : result A) (e : exn) :
  (forall e', handler <> Raise e') ->
  try_except body contained handler = Raise e -> contained e = false.
Proof.
  intros Hh. destruct body as [a|e0]; cbn; [discriminate|].
  destruct (contained e0) eqn:E.
  - intros H. now apply Hh in H.
  - now intros [= <-].
Qed.

Lemma try_except_twice {A} (body h1 h2 : result A) :
  (forall e', h2 <> Raise e') ->
  try_except (try_except body contained h2) contained h1
  = try_except body contained h2.
Proof.
  intros Hh. destruct body as [a|e0]; cbn; [reflexivity|].
  destruct (contained e0) eqn:E; cbn.
  - destruct h2; [reflexivity | now elim (Hh e)].
  - now rewrite E.
Qed.

(** X12. A decorated function never raises one of the three contained
    kinds, and decorating it a second time changes nothing, for each of
    the nine pairs of an outer and an inner decorator: the inner decorator
    has already answered. *)
Theorem decorators_compose
        (Args : Type) (func : Args -> result value) (args : Args) :
  (forall e,
      wait_for func args = Raise e \/ wait_for_list func args = Raise e
      \/ get_func_or_eptstr func args = Raise e ->
      e <> TimeoutException /\ e <> NoSuchElementException
      /\ e <> ElementNotInteractableException)
  /\ (wait_for (wait_for func) args = wait_for func args
      /\ wait_for_list (wait_for func) args = wait_for func args
      /\ get_func_or_eptstr (wait_for func) args = wait_for func args)
  /\ (wait_for (wait_for_list func) args = wait_for_list func args
      /\ wait_for_list (wait_for_list func) args = wait_for_list func args
      /\ get_func_or_eptstr (wait_for_list func) args
         = wait_for_list func args)
  /\ (wait_for (get_func_or_eptstr func) args = get_func_or_eptstr func args
      /\ wait_for_list (get_func_or_eptstr func) args
         = get_func_or_eptstr func args
      /\ get_func_or_eptstr (get_func_or_eptstr func) args
         = get_func_or_eptstr func args).
Proof.
  unfold wait_for, wait_for_list, get_func_or_eptstr.
  split.
  - intros e H.
    assert (He : contained e = false).
    { destruct H as [H|[H|H]]; revert H; apply try_except_contained;
        discriminate. }
    repeat split; intros ->; discriminate He.
  - repeat split; apply try_except_twice; discriminate.
Qed.

Section AccessorProperties.

Variable Driver : Type.
Variable seconds : Type.
Variable until_presence_of_element_located :
  Driver -> seconds -> str -> result value.
Variable until_presence_of_all_elements_located :
  Driver -> seconds -> str -> result value.
Variable until_element_to_be_clickable :
  Driver -> seconds -> str -> result value.

(** X13. The three accessors never raise a timeout, a not-found or a
    not-interactable failure, whatever the wait does; a wait that fails in
    one of these ways gives the accessor's sentinel; and with an empty
    selector they answer the sentinel even when the wait itself would
    raise. *)
Theorem accessors_contain_waits
        (driver : Driver) (css_selector : str) (twait : seconds) :
  (forall e,
      buffer until_presence_of_element_located (driver, css_selector, twait)
      = Raise e
      \/ buffer_all until_presence_of_all_elements_located
           (driver, css_selector, twait) = Raise e
      \/ buffer_interactable until_element_to_be_clickable
           (driver, css_selector, twait) = Raise e ->
      contained e = false)
  /\ (css_selector <> [] ->
      (forall e, contained e = true ->
         until_presence_of_element_located driver twait css_selector = Raise e ->
         buffer until_presence_of_element_located (driver, css_selector, twait)
         = Return VNone)
      /\ (forall e, contained e = true ->
            until_presence_of_all_elements_located driver twait css_selector
            = Raise e ->
            buffer_all until_presence_of_all_elements_located
              (driver, css_selector, twait) = Return (VList []))
      /\ (forall e, contained e = true ->
            until_element_to_be_clickable driver twait css_selector = Raise e ->
            buffer_interactable until_element_to_be_clickable
              (driver, css_selector, twait) = Return VNone))
  /\ (css_selector = [] ->
      buffer until_presence_of_element_located (driver, css_selector, twait)
      = Return VNone
      /\ buffer_all until_presence_of_all_elements_located
           (driver, css_selector, twait) = Return (VList [])
      /\ buffer_interactable until_element_to_be_clickable
           (driver, css_selector, twait) = Return VNone).
Proof.
  unfold buffer, buffer_all, buffer_interactable,
    wait_for, wait_for_list.
  split; [|split].
  - intros e [H|[H|H]]; revert H; apply try_except_contained; discriminate.
  - intros Hcss. destruct css_selector as [|c css]; [congruence|].
    cbn [is_empty].
    repeat split; intros e He ->; cbn; now rewrite He.
  - intros ->. cbn. auto.
Qed.

End AccessorProperties.

Lemma decorators_compose_witness :
  WebDriverException <> TimeoutException
  /\ WebDriverException <> NoSuchElementException
  /\ WebDriverException <> ElementNotInteractableException.
Proof.
  apply (proj1 (@decorators_compose unit
                  (fun _ => Raise WebDriverException) tt) WebDriverException).
  left. reflexivity.
Defined.

Lemma accessors_contain_waits_witness :
  buffer (fun (_ : unit) (_ : unit) (_ : str) => Raise (A:=value) TimeoutException)
         (tt, lit "#price", tt) = Return VNone
  /\ buffer (fun (_ : unit) (_ : unit) (_ : str) =>
               Raise (A:=value) WebDriverException)
            (tt, lit "", tt) = Return VNone.
Proof.
  split.
  - apply (proj1 (proj1 (proj2 (@accessors_contain_waits unit unit
             (fun _ _ _ => Raise TimeoutException)
             (fun _ _ _ => Raise TimeoutException)
             (fun _ _ _ => Raise TimeoutException)
             tt (lit "#price") tt)) ltac:(discriminate)) TimeoutException);
      reflexivity.
  - apply (proj1 (proj2 (proj2 (@accessors_contain_waits unit unit
             (fun _ _ _ => Raise WebDriverException)
             (fun _ _ _ => Raise WebDriverException)
             (fun _ _ _ => Raise WebDriverException)
             tt (lit "") tt)) eq_refl)).
Defined.

(** ** Kebab case to Pascal case *)

Lemma getitem_middle {A} (l r : list A) (x : A) :
  getitem (l ++ x :: r) (length l) = Return x.
Proof.
  unfold getitem. rewrite nth_error_app2 by lia.
  now rewrite Nat.sub_diag.
Qed.

Lemma getitem_end {A} (l : list A) :
  getitem l (length l) = Raise IndexError.
Proof.
  unfold getitem.
  now replace (nth_error l (length l)) with (@None A)
    by (symmetry; apply nth_error_None; lia).
Qed.

Lemma skipn_past_middle {A} (l r : list A) (x : A) :
  skipn (S (length l)) (l ++ x :: r) = r.
Proof. induction l as [|a l IH]; [reflexivity | exact IH]. Qed.

Lemma firstn_before_middle {A} (l r : list A) :
  firstn (length l) (l ++ r) = l.
Proof.
  induction l as [|a l IH]; [reflexivity|]. cbn. now rewrite IH.
Qed.

Lemma setitem_middle {A} (l r : list A) (x y : A) :
  setitem (l ++ x :: r) (length l) y = Return (l ++ y :: r).
Proof.
  unfold setitem.
  replace (length l <? length (l ++ x :: r))%nat with true
    by (symmetry; apply Nat.ltb_lt; rewrite length_app; cbn; lia).
  now rewrite firstn_before_middle, skipn_past_middle.
Qed.

Section CaseProperties.

Variable str_capitalize : str -> str.
Variable str_upper : str -> str.

Lemma pascal_cells_length (s : str) :
  length (pascal_cells str_upper s) = length s.
Proof.
  induction s as [|c s IH]; [reflexivity|].
  cbn [pascal_cells]. destruct (c =? 45)%N; cbn [length]; [|now rewrite IH].
  destruct (pascal_cells str_upper s); cbn in *; now rewrite IH.
Qed.

(** The loop, having filled the cells of a non-empty suffix, fills the
    rest: it cannot fail any more. *)
Lemma pascal_loop_fills (pre suf : str) (n : nat) :
  suf <> [] ->
  n = (length pre + length suf)%nat ->
  pascal_loop str_upper (rev pre) (length suf) n
    (repeat (lit "") (length pre) ++ pascal_cells str_upper suf)
  = Return (pascal_cells str_upper (pre ++ suf)).
Proof.
  revert suf n. induction pre as [|c pre IH] using rev_ind; intros suf n Hsuf Hn.
  - reflexivity.
  - rewrite rev_app_distr. cbn [rev app pascal_loop].
    rewrite length_app in *. cbn [length] in *.
    replace (n - 1 - length suf)%nat with (length pre) by lia.
    rewrite Nat.add_comm. cbn [Nat.add repeat].
    replace (lit "" :: repeat (lit "") (length pre))
      with (repeat (lit "") (length pre) ++ [lit ""])
      by (symmetry; apply (repeat_cons (length pre) (lit ""))).
    set (zeros := repeat (lit "") (length pre)).
    assert (Hz : length zeros = length pre) by apply repeat_length.
    assert (Hz1 : length (zeros ++ [lit ""]) = S (length pre))
      by (rewrite length_app, Hz; cbn; lia).
    rewrite <- app_assoc. cbn [app].
    destruct (c =? 45)%N eqn:Ec.
    + destruct (pascal_cells str_upper suf) as [|x cells] eqn:Ecells.
      { exfalso. apply Hsuf. apply length_zero_iff_nil.
        now rewrite <- pascal_cells_length, Ecells. }
      change (zeros ++ lit "" :: x :: cells)
        with (zeros ++ [lit ""] ++ x :: cells).
      rewrite (app_assoc zeros). rewrite <- Hz1.
      rewrite getitem_middle. cbn [bind]. rewrite setitem_middle. cbn [bind].
      rewrite <- app_assoc. cbn [app].
      rewrite <- Hz at 1. rewrite setitem_middle. cbn [bind].
      specialize (IH (c :: suf) n ltac:(discriminate) ltac:(cbn; lia)).
      cbn [length pascal_cells] in IH. rewrite Ec, Ecells in IH.
      cbn [upper_head] in IH. fold zeros in IH.
      rewrite <- app_assoc. exact IH.
    + cbn [bind].
      rewrite <- Hz at 1. rewrite setitem_middle. cbn [bind].
      specialize (IH (c :: suf) n ltac:(discriminate) ltac:(cbn; lia)).
      cbn [length pascal_cells] in IH. rewrite Ec in IH.
      fold zeros in IH.
      rewrite <- app_assoc. exact IH.
Qed.

(** X14. [kebabcase_to_pascalcase] raises IndexError exactly when the
    capitalized string ends with a hyphen; otherwise it returns the
    capitalized string with every hyphen removed and the character after a
    hyphen upper-cased. *)
Theorem kebabcase_to_pascalcase_cells (s : str) :
  kebabcase_to_pascalcase str_capitalize str_upper s
  = match rev (str_capitalize s) with
    | 45%N :: _ => Raise IndexError
    | _ => Return (join (lit "")
                     (pascal_cells str_upper (str_capitalize s)))
    end.
Proof.
  unfold kebabcase_to_pascalcase. cbn zeta.
  generalize (str_capitalize s). clear s. intros s.
  destruct s as [|c pre _] using rev_ind; [reflexivity|].
  rewrite rev_app_distr. cbn [rev app pascal_loop].
  rewrite length_app. cbn [length].
  replace (length pre + 1 - 1 - 0)%nat with (length pre) by lia.
  rewrite Nat.add_comm. cbn [Nat.add repeat].
  replace (lit "" :: repeat (lit "") (length pre))
    with (repeat (lit "") (length pre) ++ [lit ""])
    by (symmetry; apply (repeat_cons (length pre) (lit ""))).
  set (zeros := repeat (lit "") (length pre)).
  assert (Hz : length zeros = length pre) by apply repeat_length.
  destruct (c =? 45)%N eqn:Ec.
  - apply N.eqb_eq in Ec. subst c.
    assert (Hz1 : length (zeros ++ [lit ""]) = S (length pre))
      by (rewrite length_app, Hz; cbn; lia).
    rewrite <- Hz1. now rewrite getitem_end.
  - cbn [bind]. rewrite <- Hz at 1. rewrite setitem_middle. cbn [bind].
    pose proof (@pascal_loop_fills pre [c] (S (length pre))
                  ltac:(discriminate) ltac:(cbn; lia)) as H.
    cbn [length pascal_cells] in H. rewrite Ec in H.
    fold zeros in H.
    match goal with
    | |- bind ?m _ = _ =>
        replace m with (Return (pascal_cells str_upper (pre ++ [c])))
          by (symmetry; exact H)
    end.
    cbn [bind].
    destruct c as [|p]; [reflexivity|].
    do 6 (destruct p as [p|p|]; try reflexivity).
    discriminate Ec.
Qed.

End CaseProperties.

(** With ASCII text, an input already in lower case and the two case
    functions acting on Basic Latin letters. *)
Example kebabcase_example :
  let upper := map (fun c => if ((97 <=? c) && (c <=? 122))%N
                             then (c - 32)%N else c) in
  let capitalize := fun s => match s with
                             | [] => []
                             | c :: t => upper [c] ++ t
                             end in
  kebabcase_to_pascalcase capitalize upper (lit "ab-cd--e") = Return (lit "AbCdE")
  /\ kebabcase_to_pascalcase capitalize upper (lit "ab-") = Raise IndexError.
Proof. split; reflexivity. Qed.

(** ** Reading a zero-padded date *)

Lemma contains_char_absent (c : char) (s : str) :
  ~ In c s -> contains [c] s = false.
Proof.
  intros H. destruct (contains [c] s) eqn:E; [|reflexivity].
  apply contains_occurs in E. destruct E as (pre & post & ->).
  exfalso. apply H. apply in_or_app. right. now left.
Qed.

Lemma contains_char_present (c : char) (a b : str) :
  contains [c] (a ++ c :: b) = true.
Proof. apply contains_occurs. now exists a, b. Qed.

Lemma split_at_char (c : char) (a b : str) :
  ~ In c a -> split [c] (a ++ c :: b) = a :: split [c] b.
Proof.
  unfold split. induction a as [|x a IH]; intros H.
  - cbn. now rewrite N.eqb_refl.
  - cbn [app split_from startswith].
    replace (c =? x)%N with false
      by (symmetry; apply N.eqb_neq; intros ->; apply H; now left).
    cbn [andb]. rewrite IH; [reflexivity|].
    intros Hc. apply H. now right.
Qed.

Lemma split_last_part (c : char) (b : str) :
  ~ In c b -> split [c] b = [b].
Proof. intros H. now apply split_without_sep, contains_char_absent. Qed.

Lemma digit_char_not_in (c : char) (ks : list N) :
  (c < 48)%N -> ~ In c (map digit_char ks).
Proof.
  intros Hc H. apply in_map_iff in H. destruct H as (k & Hk & _).
  unfold digit_char in Hk. lia.
Qed.

Lemma two_digits_map (n : N) :
  two_digits n = map digit_char [n / 10; n mod 10]%N.
Proof. reflexivity. Qed.

Lemma four_digits_map (n : N) :
  four_digits n
  = map digit_char [n / 1000; (n / 100) mod 10; (n / 10) mod 10; n mod 10]%N.
Proof. reflexivity. Qed.

(** *** Printing *)

Lemma zfill_two_digits (n : N) :
  (n <= 31)%N -> zfill 2 (str_of_N n) = two_digits n.
Proof.
  intros Hn. rewrite <- (N2Nat.id n).
  assert (H : (N.to_nat n <= 31)%nat) by lia.
  clear Hn. generalize dependent (N.to_nat n). intros k Hk.
  do 32 (destruct k as [|k]; [vm_compute; reflexivity|]).
  lia.
Qed.

Lemma size_nat_from_8 (y : N) : (8 <= y)%N -> (4 <= N.size_nat y)%nat.
Proof.
  intros H. destruct y as [|p]; [lia|].
  destruct (Pos.eq_dec p 8) as [->|Hp]; [cbn; lia|].
  change 4%nat with (Pos.size_nat 8).
  apply Pos.size_nat_monotone. lia.
Qed.

Lemma zfill_four_digits (y : N) :
  (y <= 9999)%N -> zfill 4 (str_of_N y) = four_digits y.
Proof.
  intros Hy. unfold str_of_N, four_digits, digit_char, zfill.
  destruct (N.ltb_spec y 10) as [H1|H1].
  - cbn [dec_digits].
    replace (y <? 10)%N with true by (symmetry; apply N.ltb_lt; lia).
    cbn [length Nat.sub repeat app].
    repeat (apply (f_equal2 (@cons N));
              [zify; Z.to_euclidean_division_equations; lia|]);
        reflexivity.
  - pose proof (@size_nat_from_8 y ltac:(lia)) as Hs.
    destruct (N.size_nat y) as [|[|[|[|f]]]]; try lia.
    cbn [dec_digits].
    replace (y <? 10)%N with false by (symmetry; apply N.ltb_ge; lia).
    destruct (N.ltb_spec (y / 10) 10) as [H2|H2].
    + cbn [length Nat.sub repeat app].
      repeat (apply (f_equal2 (@cons N));
              [zify; Z.to_euclidean_division_equations; lia|]);
        reflexivity.
    + destruct (N.ltb_spec (y / 10 / 10) 10) as [H3|H3].
      * cbn [length Nat.sub repeat app].
        repeat (apply (f_equal2 (@cons N));
              [zify; Z.to_euclidean_division_equations; lia|]);
        reflexivity.
      * replace (y / 10 / 10 / 10 <? 10)%N with true
          by (symmetry; apply N.ltb_lt; zify; Z.to_euclidean_division_equations; lia).
        cbn [length Nat.sub repeat app].
        repeat (apply (f_equal2 (@cons N));
              [zify; Z.to_euclidean_division_equations; lia|]);
        reflexivity.
Qed.

Section PaddedDates.

Variable U : UCD.

(** *** The digits of Basic Latin *)

Lemma decimal_value_digit (k : N) :
  (k < 10)%N -> decimal_value U (digit_char k) = Some k.
Proof.
  intros Hk. unfold decimal_value, is_ascii, digit_char.
  replace (48 + k <? 128)%N with true by (symmetry; apply N.ltb_lt; lia).
  replace ((48 <=? 48 + k) && (48 + k <=? 57))%N with true
    by (symmetry; apply andb_true_iff; split; apply N.leb_le; lia).
  f_equal. lia.
Qed.

Lemma isdecimal_digit (k : N) :
  (k < 10)%N -> isdecimal_char U (digit_char k) = true.
Proof.
  intros Hk. unfold isdecimal_char. now rewrite decimal_value_digit.
Qed.

Lemma int_space_digit (k : N) :
  (k < 10)%N -> int_space (digit_char k) = false.
Proof.
  intros Hk. unfold int_space, is_ascii, digit_char.
  replace (48 + k <? 128)%N with true by (symmetry; apply N.ltb_lt; lia).
  apply orb_false_iff. split.
  - apply andb_false_iff. right. apply N.leb_gt. lia.
  - apply N.eqb_neq. lia.
Qed.

Lemma underscore_digit (k : N) : (digit_char k =? 95)%N = false \/ (10 <= k)%N.
Proof.
  destruct (N.ltb_spec k 10); [left|now right].
  apply N.eqb_neq. unfold digit_char. lia.
Qed.

(** *** [int] on the components *)

Lemma count_digits_short (body : str) :
  (length body <= int_max_str_digits)%nat ->
  (int_max_str_digits <? count_digits body)%nat = false.
Proof.
  intros H. apply Nat.ltb_ge. unfold count_digits.
  eapply Nat.le_trans; [apply filter_length_le | exact H].
Qed.

Lemma int_of_two_digits (n : N) :
  (n <= 31)%N -> int_of_str U (two_digits n) = Return (Z.of_N n).
Proof.
  intros Hn. rewrite <- (N2Nat.id n).
  assert (H : (N.to_nat n <= 31)%nat) by lia.
  clear Hn. generalize dependent (N.to_nat n). intros k Hk.
  do 32 (destruct k as [|k]; [vm_compute; reflexivity|]).
  lia.
Qed.

Lemma digits_from_digits (ks : list N) (acc : N) (after_digit : bool) :
  Forall (fun k => (k < 10)%N) ks ->
  ks <> [] ->
  digits_from U acc after_digit (map digit_char ks)
  = Some (fold_left (fun a k => (10 * a + k)%N) ks acc).
Proof.
  intros Hks. revert acc after_digit.
  induction Hks as [|k ks Hk Hks IH]; intros acc after_digit Hne; [congruence|].
  cbn [map digits_from fold_left].
  destruct (underscore_digit k) as [->|]; [|lia].
  rewrite (decimal_value_digit Hk).
  destruct ks as [|k' ks]; [reflexivity|].
  apply IH. discriminate.
Qed.

Lemma int_of_four_digits (y : N) :
  (y <= 9999)%N -> int_of_str U (four_digits y) = Return (Z.of_N y).
Proof.
  intros Hy.
  assert (H1 : (y / 1000 < 10)%N) by (zify; Z.to_euclidean_division_equations; lia).
  assert (H2 : ((y / 100) mod 10 < 10)%N) by (apply N.mod_lt; discriminate).
  assert (H3 : ((y / 10) mod 10 < 10)%N) by (apply N.mod_lt; discriminate).
  assert (H4 : (y mod 10 < 10)%N) by (apply N.mod_lt; discriminate).
  assert (Hval : (10 * (10 * (10 * (10 * 0 + y / 1000) + (y / 100) mod 10)
                        + (y / 10) mod 10) + y mod 10 = y)%N)
    by (zify; Z.to_euclidean_division_equations; lia).
  pose proof (@digits_from_digits
                [y / 1000; (y / 100) mod 10; (y / 10) mod 10; y mod 10]%N
                0%N false) as Hd.
  cbn [fold_left] in Hd. rewrite Hval in Hd.
  rewrite <- four_digits_map in Hd.
  unfold int_of_str.
  assert (Hstrip : rev (drop_while int_space
                          (rev (drop_while int_space (four_digits y))))
                   = four_digits y).
  { unfold four_digits. cbn [drop_while]. rewrite (int_space_digit H1).
    cbn [rev app drop_while]. now rewrite (int_space_digit H4). }
  rewrite Hstrip.
  specialize (Hd ltac:(repeat constructor; assumption) ltac:(discriminate)).
  revert Hd. generalize (four_digits_map y). cbn [map].
  set (rest := [digit_char ((y / 100) mod 10); digit_char ((y / 10) mod 10);
                digit_char (y mod 10)]).
  assert (Hlen : length rest = 3%nat) by reflexivity.
  clearbody rest. clear Hstrip Hval. intros ->.
  remember (y / 1000)%N as k eqn:Ek. clear Ek.
  rewrite <- (N2Nat.id k). assert (Hk : (N.to_nat k < 10)%nat) by lia.
  clear H1. generalize dependent (N.to_nat k). intros j Hj.
  do 10 (destruct j as [|j];
         [intros Hd; unfold digit_char in *;
          cbn -[int_max_str_digits Nat.ltb count_digits] in Hd |- *;
          rewrite Hd;
          rewrite count_digits_short
            by (cbn [length]; rewrite Hlen; unfold int_max_str_digits; lia);
          reflexivity|]).
  lia.
Qed.

(** *** Matching the components *)

Lemma re_match_literal (c : char) (fmt : list directive) (rest : str)
      (groups : list (directive * str)) (r : str) :
  re_match U fmt rest = Some (groups, r) ->
  re_match U (literal c :: fmt) (c :: rest)
  = Some ((literal c, [c]) :: groups, r).
Proof.
  intros H. cbn. unfold one. rewrite N.eqb_refl. now rewrite H.
Qed.

Lemma re_match_day (d : N) (fmt : list directive) (rest : str)
      (groups : list (directive * str)) (r : str) :
  (1 <= d <= 31)%N ->
  re_match U fmt rest = Some (groups, r) ->
  re_match U (pct_d :: fmt) (two_digits d ++ rest)
  = Some ((pct_d, two_digits d) :: groups, r).
Proof.
  intros Hd H. rewrite <- (N2Nat.id d).
  assert (Hk : (1 <= N.to_nat d <= 31)%nat) by lia.
  clear Hd. generalize dependent (N.to_nat d). intros k Hk.
  do 32 (destruct k as [|k];
         [try lia; cbn; rewrite H; reflexivity|]).
  lia.
Qed.

Lemma re_match_month (m : N) (fmt : list directive) (rest : str)
      (groups : list (directive * str)) (r : str) :
  (1 <= m <= 12)%N ->
  re_match U fmt rest = Some (groups, r) ->
  re_match U (pct_m :: fmt) (two_digits m ++ rest)
  = Some ((pct_m, two_digits m) :: groups, r).
Proof.
  intros Hm H. rewrite <- (N2Nat.id m).
  assert (Hk : (1 <= N.to_nat m <= 12)%nat) by lia.
  clear Hm. generalize dependent (N.to_nat m). intros k Hk.
  do 13 (destruct k as [|k];
         [try lia; cbn; rewrite H; reflexivity|]).
  lia.
Qed.

Lemma re_match_year (y : N) (fmt : list directive) (rest : str)
      (groups : list (directive * str)) (r : str) :
  (y <= 9999)%N ->
  re_match U fmt rest = Some (groups, r) ->
  re_match U (pct_Y :: fmt) (four_digits y ++ rest)
  = Some ((pct_Y, four_digits y) :: groups, r).
Proof.
  intros Hy H.
  assert (H1 : (y / 1000 < 10)%N) by (zify; Z.to_euclidean_division_equations; lia).
  assert (H2 : ((y / 100) mod 10 < 10)%N) by (apply N.mod_lt; discriminate).
  assert (H3 : ((y / 10) mod 10 < 10)%N) by (apply N.mod_lt; discriminate).
  assert (H4 : (y mod 10 < 10)%N) by (apply N.mod_lt; discriminate).
  unfold four_digits. cbn [re_match alternatives match_alt app].
  rewrite (isdecimal_digit H1), (isdecimal_digit H2),
    (isdecimal_digit H3), (isdecimal_digit H4).
  now rewrite H.
Qed.

End PaddedDates.

Lemma days_in_month_le_31 (y m : Z) : (days_in_month y m <= 31)%Z.
Proof.
  unfold days_in_month.
  repeat match goal with
         | |- context [if ?b then _ else _] => destruct b
         end; lia.
Qed.

Lemma datetime_valid (y m d : N) :
  (1 <= y <= 9999)%N -> (1 <= m <= 12)%N -> (1 <= d)%N ->
  (Z.of_N d <= days_in_month (Z.of_N y) (Z.of_N m))%Z ->
  datetime (Z.of_N y) (Some (Z.of_N m)) (Z.of_N d)
  = Return {| year := Z.of_N y; month := Z.of_N m; day := Z.of_N d |}.
Proof.
  intros Hy Hm Hd Hdays.
  pose proof (days_in_month_le_31 (Z.of_N y) (Z.of_N m)) as H31.
  unfold datetime, fits_c_int.
  repeat match goal with
         | |- context [negb (?a && ?b)] =>
             replace (a && b) with true
               by (symmetry; apply andb_true_iff; split; apply Z.leb_le; lia);
             cbn [negb]
         end.
  match goal with
  | |- context [if ?c then _ else _] =>
      replace c with true; [reflexivity|]
  end.
  symmetry. repeat (apply andb_true_iff; split); apply Z.leb_le; lia.
Qed.

Lemma strftime_padded (y m d : N) :
  (m <= 31)%N -> (d <= 31)%N ->
  strftime_Y_m_d {| year := Z.of_N y; month := Z.of_N m; day := Z.of_N d |}
  = str_of_N y ++ lit "-" ++ two_digits m ++ lit "-" ++ two_digits d.
Proof.
  intros Hm Hd. unfold strftime_Y_m_d. cbn [year month day].
  rewrite !N2Z.id.
  now rewrite (zfill_two_digits Hm), (zfill_two_digits Hd).
Qed.

(** From 1000 on, a year is printed with its four digits. *)
Lemma str_of_N_four_digits (y : N) :
  (1000 <= y <= 9999)%N -> str_of_N y = four_digits y.
Proof.
  intros Hy. pose proof (@zfill_four_digits y ltac:(lia)) as H.
  unfold zfill in H.
  destruct (4 - length (str_of_N y))%nat as [|k]; [exact H|].
  exfalso. cbn [repeat app] in H. unfold four_digits in H.
  injection H as H _. unfold digit_char in H.
  assert (H0 : (y / 1000 = 0)%N) by lia.
  zify; Z.to_euclidean_division_equations; lia.
Qed.

(** Below 1000 it has fewer. *)
Lemma str_of_N_short (y : N) :
  (y < 1000)%N -> (length (str_of_N y) < 4)%nat.
Proof.
  intros Hy. unfold str_of_N.
  destruct (N.ltb_spec y 10) as [H1|H1].
  - cbn [dec_digits].
    replace (y <? 10)%N with true by (symmetry; apply N.ltb_lt; lia).
    cbn [length]. lia.
  - pose proof (@size_nat_from_8 y ltac:(lia)) as Hs.
    destruct (N.size_nat y) as [|[|[|[|f]]]]; try lia.
    cbn [dec_digits].
    replace (y <? 10)%N with false by (symmetry; apply N.ltb_ge; lia).
    destruct (N.ltb_spec (y / 10) 10) as [H2|H2]; [cbn [length]; lia|].
    replace (y / 10 / 10 <? 10)%N with true
      by (symmetry; apply N.ltb_lt;
          zify; Z.to_euclidean_division_equations; lia).
    cbn [length]. lia.
Qed.

Section ReadingDates.

Variable U : UCD.

Lemma strptime_day_first (c : char) (fmt : str) (y m d : N) :
  directives fmt = [pct_d; literal c; pct_m; literal c; pct_Y] ->
  (1 <= y <= 9999)%N -> (1 <= m <= 12)%N -> (1 <= d)%N ->
  (Z.of_N d <= days_in_month (Z.of_N y) (Z.of_N m))%Z ->
  strptime U (two_digits d ++ c :: two_digits m ++ c :: four_digits y) fmt
  = Return {| year := Z.of_N y; month := Z.of_N m; day := Z.of_N d |}.
Proof.
  intros Hfmt Hy Hm Hd Hdays.
  pose proof (days_in_month_le_31 (Z.of_N y) (Z.of_N m)) as H31.
  unfold strptime. rewrite Hfmt.
  assert (R : re_match U [pct_d; literal c; pct_m; literal c; pct_Y]
                (two_digits d ++ c :: two_digits m ++ c :: four_digits y ++ [])
              = Some ([(pct_d, two_digits d); (literal c, [c]);
                       (pct_m, two_digits m); (literal c, [c]);
                       (pct_Y, four_digits y)], [])).
  { apply re_match_day; [lia|]. apply re_match_literal.
    apply re_match_month; [lia|]. apply re_match_literal.
    apply re_match_year; [lia|]. reflexivity. }
  rewrite app_nil_r in R. rewrite R.
  cbn [group directive_eqb group_int].
  rewrite int_of_four_digits by lia. cbn [bind].
  rewrite !int_of_two_digits by lia. cbn [bind].
  now apply datetime_valid.
Qed.

Lemma strptime_year_first (c : char) (fmt : str) (y m d : N) :
  directives fmt = [pct_Y; literal c; pct_m; literal c; pct_d] ->
  (1 <= y <= 9999)%N -> (1 <= m <= 12)%N -> (1 <= d)%N ->
  (Z.of_N d <= days_in_month (Z.of_N y) (Z.of_N m))%Z ->
  strptime U (four_digits y ++ c :: two_digits m ++ c :: two_digits d) fmt
  = Return {| year := Z.of_N y; month := Z.of_N m; day := Z.of_N d |}.
Proof.
  intros Hfmt Hy Hm Hd Hdays.
  pose proof (days_in_month_le_31 (Z.of_N y) (Z.of_N m)) as H31.
  unfold strptime. rewrite Hfmt.
  assert (R : re_match U [pct_Y; literal c; pct_m; literal c; pct_d]
                (four_digits y ++ c :: two_digits m ++ c :: two_digits d ++ [])
              = Some ([(pct_Y, four_digits y); (literal c, [c]);
                       (pct_m, two_digits m); (literal c, [c]);
                       (pct_d, two_digits d)], [])).
  { apply re_match_year; [lia|]. apply re_match_literal.
    apply re_match_month; [lia|]. apply re_match_literal.
    apply re_match_day; [lia|]. reflexivity. }
  rewrite app_nil_r in R. rewrite R.
  cbn [group directive_eqb group_int].
  rewrite int_of_four_digits by lia. cbn [bind].
  rewrite !int_of_two_digits by lia. cbn [bind].
  now apply datetime_valid.
Qed.

(** Splitting three digit groups at a separator that is not a digit. *)
Lemma split_three (c : char) (a b e : list N) :
  (c < 48)%N ->
  split [c] (map digit_char a ++ c :: map digit_char b ++ c :: map digit_char e)
  = [map digit_char a; map digit_char b; map digit_char e].
Proof.
  intros Hc.
  rewrite split_at_char by now apply digit_char_not_in.
  rewrite split_at_char by now apply digit_char_not_in.
  rewrite split_last_part by now apply digit_char_not_in.
  reflexivity.
Qed.

Lemma no_char_in_three (c c' : char) (a b e : list N) :
  (c < 48)%N -> c <> c' ->
  contains [c]
    (map digit_char a ++ c' :: map digit_char b ++ c' :: map digit_char e)
  = false.
Proof.
  intros Hc Hcc. apply contains_char_absent. intros H.
  apply in_app_or in H. destruct H as [H|[H|H]];
    [now apply (digit_char_not_in a Hc) | congruence |].
  apply in_app_or in H. destruct H as [H|[H|H]];
    [now apply (digit_char_not_in b Hc) | congruence |].
  now apply (digit_char_not_in e Hc).
Qed.

(** X15. Every calendar date written with leading zeros is read:
    [format_date_string_d_m_y] turns "dd.mm.yyyy" and "dd-mm-yyyy", and
    [format_date_string_y_m_d] turns "yyyy.mm.dd", into the year as
    [strftime] prints it, "-mm-dd" after it; [format_date_string_y_m_d]
    returns "yyyy-mm-dd" as it is.  From the year 1000 on the year is
    printed with its four digits and the four results are the same
    "yyyy-mm-dd"; below, the first three lose the leading zeros of the
    year. *)
Theorem numeric_parsers_read_padded_dates (y m d : N) :
  (1 <= y <= 9999)%N -> (1 <= m <= 12)%N -> (1 <= d)%N ->
  (Z.of_N d <= days_in_month (Z.of_N y) (Z.of_N m))%Z ->
  let iso := str_of_N y ++ lit "-" ++ two_digits m ++ lit "-" ++ two_digits d in
  format_date_string_d_m_y U
    (two_digits d ++ lit "." ++ two_digits m ++ lit "." ++ four_digits y)
  = Return (Some iso)
  /\ format_date_string_d_m_y U
       (two_digits d ++ lit "-" ++ two_digits m ++ lit "-" ++ four_digits y)
     = Return (Some iso)
  /\ format_date_string_y_m_d U
       (four_digits y ++ lit "." ++ two_digits m ++ lit "." ++ two_digits d)
     = Return (Some iso)
  /\ format_date_string_y_m_d U
       (four_digits y ++ lit "-" ++ two_digits m ++ lit "-" ++ two_digits d)
     = Return (Some (four_digits y ++ lit "-" ++ two_digits m
                     ++ lit "-" ++ two_digits d))
  /\ ((1000 <= y)%N -> str_of_N y = four_digits y)
  /\ ((y < 1000)%N -> (length (str_of_N y) < 4)%nat).
Proof.
  intros Hy Hm Hd Hdays iso.
  pose proof (days_in_month_le_31 (Z.of_N y) (Z.of_N m)) as H31.
  assert (Hiso : strftime_Y_m_d
                   {| year := Z.of_N y; month := Z.of_N m; day := Z.of_N d |}
                 = iso) by (apply strftime_padded; lia).
  set (dd := [d / 10; d mod 10]%N).
  set (mm := [m / 10; m mod 10]%N).
  set (yyyy := [y / 1000; (y / 100) mod 10; (y / 10) mod 10; y mod 10]%N).
  assert (Sd : forall c : char, (c < 48)%N ->
             split [c] (two_digits d ++ c :: two_digits m ++ c :: four_digits y)
             = [two_digits d; two_digits m; four_digits y])
    by (intros c Hc; exact (@split_three c dd mm yyyy Hc)).
  assert (Sy : forall c : char, (c < 48)%N ->
             split [c] (four_digits y ++ c :: two_digits m ++ c :: two_digits d)
             = [four_digits y; two_digits m; two_digits d])
    by (intros c Hc; exact (@split_three c yyyy mm dd Hc)).
  assert (Nd : forall c c' : char, (c < 48)%N -> c <> c' ->
             contains [c]
               (two_digits d ++ c' :: two_digits m ++ c' :: four_digits y)
             = false)
    by (intros c c' Hc Hcc; exact (@no_char_in_three c c' dd mm yyyy Hc Hcc)).
  assert (Ny : forall c c' : char, (c < 48)%N -> c <> c' ->
             contains [c]
               (four_digits y ++ c' :: two_digits m ++ c' :: two_digits d)
             = false)
    by (intros c c' Hc Hcc; exact (@no_char_in_three c c' yyyy mm dd Hc Hcc)).
  clear dd mm yyyy.
  change (lit ".") with [46%N]. change (lit "-") with [45%N] in *.
  cbn [app] in *.
  unfold format_date_string_d_m_y, format_date_string_y_m_d, split_date, parsed.
  cbn zeta.
  change (lit ".") with [46%N]. change (lit "-") with [45%N].
  split; [|split; [|split; [|split; [|split]]]].
  - rewrite contains_char_present, !Sd by lia.
    cbn [length Nat.eqb getitem nth_error bind four_digits].
    rewrite (@strptime_day_first 46%N (lit "%d.%m.%Y") y m d eq_refl Hy Hm Hd Hdays).
    cbn [bind]. now rewrite Hiso.
  - rewrite !Nd, !Sd by (lia || discriminate). rewrite contains_char_present.
    cbn [length Nat.eqb getitem nth_error bind four_digits].
    rewrite (@strptime_day_first 45%N (lit "%d-%m-%Y") y m d eq_refl Hy Hm Hd Hdays).
    cbn [bind]. now rewrite Hiso.
  - rewrite contains_char_present, !Sy by lia.
    cbn [length Nat.eqb getitem nth_error bind four_digits].
    rewrite (@strptime_year_first 46%N (lit "%Y.%m.%d") y m d eq_refl Hy Hm Hd Hdays).
    cbn [bind]. now rewrite Hiso.
  - rewrite !Ny, !Sy by (lia || discriminate). rewrite contains_char_present.
    reflexivity.
  - intros H. apply str_of_N_four_digits. lia.
  - now apply str_of_N_short.
Qed.

End ReadingDates.

Lemma numeric_parsers_read_padded_dates_witness :
  format_date_string_d_m_y basic_latin (lit "29.02.2024")
  = Return (Some (lit "2024-02-29"))
  /\ format_date_string_y_m_d basic_latin (lit "0999.01.01")
     = Return (Some (lit "999-01-01")).
Proof.
  split.
  - apply (proj1 (@numeric_parsers_read_padded_dates basic_latin 2024 2 29
                    ltac:(lia) ltac:(lia) ltac:(lia)
                    ltac:(vm_compute; discriminate))).
  - apply (proj1 (proj2 (proj2
             (@numeric_parsers_read_padded_dates basic_latin 999 1 1
                ltac:(lia) ltac:(lia) ltac:(lia)
                ltac:(vm_compute; discriminate))))).
Defined.
